(** * Social-dapp: the chat widget, the text formatter and the landing page

    A shallow embedding of

    - [ChatWindow] (state, [sendMessage], the typing effect, [formatTimestamp]
      and [formatResponseText]), and
    - the two [Home] landing components

    together with the properties of the repository's specification that
    concern them.

    JavaScript strings are sequences of UTF-16 code units; they are modelled
    by [string], one [ascii] per code unit, which covers the code units
    below 256.  The React state of a component is a record; a state setter
    called with an updater function applies that function to the record. *)

From Stdlib Require Import ZArith QArith Qabs Ascii String DecimalString DecimalZ Lia.
From stdpp Require Import base option list strings.

Local Open Scope Z_scope.

(** ** The JavaScript built-ins the components call *)

Module JS.

(** [s.length] *)
Definition length (s : string) : nat := String.length s.

(** WhiteSpace and LineTerminator code units below 256: TAB, LF, VT, FF,
    CR, SP and NBSP.  The other code units [trim] strips (U+1680,
    U+2000 to U+200A, U+2028, U+2029, U+202F, U+205F, U+3000 and U+FEFF)
    lie above 255 and do not occur in the strings modelled here. *)
Definition isWhiteSpace (c : ascii) : bool :=
  let n := nat_of_ascii c in
  ((9 <=? n) && (n <=? 13) || (n =? 32) || (n =? 160))%nat.

Fixpoint trimStart (s : string) : string :=
  match s with
  | EmptyString => EmptyString
  | String c s' => if isWhiteSpace c then trimStart s' else s
  end.

(** [trimEnd] keeps a character when it is not white space or when
    something is kept after it. *)
Fixpoint trimEnd (s : string) : string :=
  match s with
  | EmptyString => EmptyString
  | String c s' =>
      match trimEnd s' with
      | EmptyString => if isWhiteSpace c then EmptyString else String c EmptyString
      | t => String c t
      end
  end.

(** [s.trim()] *)
Definition trim (s : string) : string := trimEnd (trimStart s).

(** ToBoolean on a string: only the empty string is falsy. *)
Definition truthy (s : string) : bool :=
  match s with EmptyString => false | String _ _ => true end.

(** ToBoolean on an optional boolean field: [undefined] is falsy. *)
Definition truthy_opt (o : option bool) : bool :=
  match o with Some b => b | None => false end.

(** [s.slice(start, end)]: a negative index counts from the end, both
    indices are clamped to [0, s.length]. *)
Definition clampIndex (len i : Z) : Z :=
  if i <? 0 then Z.max (len + i) 0 else Z.min i len.

Definition slice (start_ end_ : Z) (s : string) : string :=
  let len := Z.of_nat (length s) in
  let from := clampIndex len start_ in
  let to := clampIndex len end_ in
  substring (Z.to_nat from) (Z.to_nat (Z.max (to - from) 0)) s.

(** [s.startsWith(p)] and [s.endsWith(p)] *)
Definition startsWith (p s : string) : bool := String.prefix p s.

Definition endsWith (p s : string) : bool :=
  (length p <=? length s)%nat
  && String.eqb (substring (length s - length p) (length p) s) p.

(** [n.toString()] for an integer [n] whose magnitude is below 10^21,
    which is where the decimal digits are printed in full. *)
Definition numberToString (n : Z) : string :=
  NilZero.string_of_int (Z.to_int n).

End JS.

(** ** The chat widget: data model *)

Inductive Sender := user | ai.

#[global] Instance Sender_eq_dec : EqDecision Sender.
Proof. solve_decision. Defined.

(** [interface ChatMessage]; the two optional fields are [None] when the
    object literal leaves them out. *)
Record ChatMessage := {
  sender : Sender;
  text : string;
  timestamp : string;
  displayText : string;
  isImage : option bool;
  isLoading : option bool
}.

(** [{ ...m, displayText: d }] *)
Definition with_displayText (m : ChatMessage) (d : string) : ChatMessage :=
  {| sender := sender m; text := text m; timestamp := timestamp m;
     displayText := d; isImage := isImage m; isLoading := isLoading m |}.

(** The three [useState] cells of [ChatWindow]. *)
Record ChatWindow := {
  messages : list ChatMessage;
  input : string;
  isProcessing : bool
}.

Definition initial : ChatWindow :=
  {| messages := []; input := ""; isProcessing := false |}.

(** ** State setters and exceptions

    The body of [sendMessage] is a sequence of state-setter calls inside
    [try]/[catch]/[finally].  A computation takes the component state and
    returns the new state with either a value or a thrown exception. *)

Inductive completion (A : Type) :=
| Normal (a : A)
| Throw.
Arguments Normal {A} a.
Arguments Throw {A}.

Definition Act (A : Type) : Type := ChatWindow -> ChatWindow * completion A.

#[global] Instance Act_ret : MRet Act := λ A a w, (w, Normal a).

#[global] Instance Act_bind : MBind Act := λ A B f c w,
  match c w with
  | (w', Normal a) => f a w'
  | (w', Throw) => (w', Throw)
  end.

Definition throw {A} : Act A := λ w, (w, Throw).

(** [try { body } catch { handler } finally { final }] where neither the
    handler nor the final block throws. *)
Definition try_catch_finally (body handler final : Act unit) : Act unit := λ w,
  match body w with
  | (w', Normal _) => final w'
  | (w', Throw) => (handler ≫= λ _, final) w'
  end.

Definition setMessages (f : list ChatMessage → list ChatMessage) : Act unit :=
  λ w, ({| messages := f (messages w); input := input w;
           isProcessing := isProcessing w |}, Normal ()).

Definition setInput (s : string) : Act unit :=
  λ w, ({| messages := messages w; input := s;
           isProcessing := isProcessing w |}, Normal ()).

Definition setIsProcessing (b : bool) : Act unit :=
  λ w, ({| messages := messages w; input := input w;
           isProcessing := b |}, Normal ()).

(** ** The request and what the awaited [fetch] can settle to *)

Record Request := {
  url : string;
  method : string;
  headers : list (string * string);
  body : string
}.

(** The reply body as [res.json()] sees it: either it does not parse (the
    promise rejects) or it is an object whose [response] field is a string,
    which is what the endpoint answers. *)
Inductive ReplyBody :=
| NotJson
| Data (response : string).

(** [fetch] rejects (network error) or resolves to a response with its
    [ok] flag. *)
Inductive FetchResult :=
| Rejected
| Resolved (ok : bool) (reply : ReplyBody).

(** ** JSON.stringify on the objects the widget sends *)

#[warnings="-register-all"]
Inductive json :=
| JString (s : string)
| JObject (fields : list (string * json)).

Definition hexDigit (n : nat) : ascii :=
  ascii_of_nat (if (n <? 10)%nat then 48 + n else 87 + n).

Definition dquote : ascii := ascii_of_nat 34.
Definition backslash : ascii := ascii_of_nat 92.

(** QuoteJSONString, one code unit at a time. *)
Definition quoteUnit (c : ascii) : string :=
  let n := nat_of_ascii c in
  if (n =? 8)%nat then String backslash "b"
  else if (n =? 9)%nat then String backslash "t"
  else if (n =? 10)%nat then String backslash "n"
  else if (n =? 12)%nat then String backslash "f"
  else if (n =? 13)%nat then String backslash "r"
  else if (n =? 34)%nat then String backslash (String dquote "")
  else if (n =? 92)%nat then String backslash (String backslash "")
  else if (n <? 32)%nat then
    String backslash ("u00" +:+ String (hexDigit (n / 16)) (String (hexDigit (n mod 16)) ""))
  else String c "".

Fixpoint quoteUnits (s : string) : string :=
  match s with
  | EmptyString => EmptyString
  | String c s' => quoteUnit c +:+ quoteUnits s'
  end.

Definition QuoteJSONString (s : string) : string :=
  String dquote (quoteUnits s +:+ String dquote "").

Fixpoint JSON_stringify (v : json) : string :=
  match v with
  | JString s => QuoteJSONString s
  | JObject fields =>
      "{" +:+ String.concat ","
                (List.map (λ kv, QuoteJSONString (fst kv) +:+ ":" +:+ JSON_stringify (snd kv))
                          fields)
          +:+ "}"
  end.

(** ** [ChatWindow]: [sendMessage] and the typing effect *)

Section ChatWindow.

(** The [influencerName] prop. *)
Variable influencerName : string.

(** The user message and the loader built on lines 79-93; [now] is what
    [Date.now()] returns. *)
Definition userMessage (input : string) (now : Z) : ChatMessage :=
  {| sender := user; text := input; displayText := input;
     timestamp := JS.numberToString now;
     isImage := None; isLoading := None |}.

Definition loadingMessage : ChatMessage :=
  {| sender := ai; text := ""; displayText := ""; timestamp := "";
     isImage := None; isLoading := Some true |}.

Definition fetchRequest (input : string) : Request :=
  {| url := "/api/ai/" +:+ influencerName;
     method := "POST";
     headers := [("Content-Type", "application/json")];
     body := JSON_stringify (JObject [("message", JString input)]) |}.

(** [sendMessage] from its first line to the [await fetch(...)].  [input]
    and [isProcessing] are the values the handler closed over at the
    render it belongs to.  The result is the request handed to [fetch],
    if one was issued. *)
Definition sendMessage (input : string) (isProcessing : bool) (now : Z)
  : Act (option Request) :=
  if negb (JS.truthy (JS.trim input)) || isProcessing then mret None
  else
    setIsProcessing true ;;
    setMessages (λ prev, prev ++ [userMessage input now; loadingMessage]) ;;
    setInput "" ;;
    mret (Some (fetchRequest input)).

Definition aiMessage (response : string) (now : Z) : ChatMessage :=
  let isImageResponse := String.eqb influencerName "artifex" in
  {| sender := ai; text := response;
     displayText := if isImageResponse then "" else "";
     timestamp := JS.numberToString now;
     isImage := Some isImageResponse; isLoading := None |}.

Definition errorMessage (now : Z) : ChatMessage :=
  {| sender := ai;
     text := "Failed to generate response. Please try again.";
     displayText := "Failed to generate response. Please try again.";
     timestamp := JS.numberToString now;
     isImage := None; isLoading := None |}.

(** [await fetch(...)], [if (!res.ok) throw ...] and [await res.json()]. *)
Definition awaitFetch (r : FetchResult) : Act (bool * ReplyBody) :=
  match r with
  | Rejected => throw
  | Resolved ok reply => mret (ok, reply)
  end.

Definition awaitJson (reply : ReplyBody) : Act string :=
  match reply with
  | NotJson => throw
  | Data response => mret response
  end.

(** [sendMessage] from the point where the awaited [fetch] settles to its
    end.  [now] is what the one [Date.now()] call of the path taken
    returns. *)
Definition sendMessage_resume (r : FetchResult) (now : Z) : Act unit :=
  try_catch_finally
    (res ← awaitFetch r ;
     if negb (fst res) then throw
     else
       response ← awaitJson (snd res) ;
       setMessages (λ prev,
         List.map (λ msg, if String.eqb (timestamp msg) (timestamp loadingMessage)
                          then aiMessage response now else msg) prev))
    (setMessages (λ prev,
       List.filter (λ msg, negb (String.eqb (timestamp msg) (timestamp loadingMessage))) prev) ;;
     setMessages (λ prev, prev ++ [errorMessage now]))
    (setIsProcessing false).

(** The typing effect (lines 51-72).  It runs after every change of
    [messages]; [typingEffect] gives the [lastMessage] its timer closes
    over when it arms one, [None] when it arms none. *)
Definition typingEffect (messages : list ChatMessage) : option ChatMessage :=
  match last messages with
  | Some lastMessage =>
      if bool_decide (sender lastMessage = ai)
         && negb (JS.truthy_opt (isLoading lastMessage))
         && negb (JS.truthy_opt (isImage lastMessage))
         && (JS.length (displayText lastMessage) <? JS.length (text lastMessage))%nat
      then Some lastMessage
      else None
  | None => None
  end.

(** The updater the timer passes to [setMessages].  On an empty [prev]
    reading [lastMsg.displayText] is a TypeError: [None]. *)
Definition typingTick (lastMessage : ChatMessage) (prev : list ChatMessage)
  : option (list ChatMessage) :=
  let newMessages := prev in
  match last newMessages with
  | Some lastMsg =>
      Some (<[ (List.length newMessages - 1)%nat :=
               with_displayText lastMsg
                 (JS.slice 0 (Z.of_nat (JS.length (displayText lastMsg)) + 1)
                           (text lastMessage)) ]> newMessages)
  | None => None
  end.

End ChatWindow.

(** ** The widget as a transition system

    Everything runs on the one UI thread, one event at a time.  Besides the
    component state the world holds the requests handed to [fetch] that
    have not settled yet. *)

Record World := {
  window : ChatWindow;
  inflight : list Request
}.

Definition start : World := {| window := initial; inflight := [] |}.

Inductive Event :=
| Change (value : string)                 (* [onChange] of the textarea *)
| Submit (now : Z)                        (* click on the button, or Enter *)
| TimerFires                              (* the 20 ms timer of the typing effect *)
| FetchSettles (r : FetchResult) (now : Z). (* the awaited [fetch] settles *)

Section Widget.

Variable influencerName : string.

(** [Submit] runs the handler of the current render, which closed over the
    current [input] and [isProcessing].  React re-runs the typing effect
    after every change of [messages] and its cleanup clears the timer armed
    before (for a render caused by a click or a key press React 18 does so
    before the event is over), so the timer that fires is the one armed for
    the current list: [lastMessage] is the last message of that list and
    [prev] is that list.  With a timer armed the list is not empty and the
    updater does not fail. *)
Definition step (e : Event) (w : World) : World :=
  match e with
  | Change value =>
      {| window := fst (setInput value (window w)); inflight := inflight w |}
  | Submit now =>
      match sendMessage influencerName (input (window w))
                        (isProcessing (window w)) now (window w) with
      | (win, Normal (Some req)) =>
          {| window := win; inflight := inflight w ++ [req] |}
      | (win, _) => {| window := win; inflight := inflight w |}
      end
  | TimerFires =>
      match typingEffect (messages (window w)) with
      | Some lastMessage =>
          {| window :=
               fst (setMessages (λ prev, default prev (typingTick lastMessage prev))
                                (window w));
             inflight := inflight w |}
      | None => w
      end
  | FetchSettles r now =>
      match inflight w with
      | [] => w
      | _ :: rest =>
          {| window := fst (sendMessage_resume influencerName r now (window w));
             inflight := rest |}
      end
  end.

Definition run (evs : list Event) (w : World) : World :=
  foldl (λ w e, step e w) w evs.

Definition reachable (w : World) : Prop := ∃ evs, run evs start = w.

(** [n] consecutive firings of the timer *)
Definition ticks (n : nat) : list Event := replicate n TimerFires.

End Widget.

(** A message that the typing effect animates: from the assistant, neither
    a loader nor an image. *)
Definition textual (m : ChatMessage) : Prop :=
  sender m = ai ∧ JS.truthy_opt (isLoading m) = false
  ∧ JS.truthy_opt (isImage m) = false.

Definition is_prefix (d t : string) : Prop := ∃ rest, t = d +:+ rest.

Definition loading (m : ChatMessage) : bool := JS.truthy_opt (isLoading m).

(** Number of loaders in a message list. *)
Definition loaders (l : list ChatMessage) : nat :=
  List.length (List.filter loading l).
(** ** Vocabulary of the properties *)

(** The guard on line 75 lets the call through. *)
Definition accepted (w : ChatWindow) : Prop :=
  JS.trim (input w) ≠ ""%string ∧ isProcessing w = false.

(** The awaited request ends in the [catch] block. *)
Definition failed (r : FetchResult) : Prop :=
  match r with
  | Resolved true (Data _) => False
  | _ => True
  end.

Definition isLoader (msg : ChatMessage) : bool :=
  String.eqb (timestamp msg) (timestamp loadingMessage).

(** What one firing of the timer makes of the last message. *)
Definition reveal (m : ChatMessage) : ChatMessage :=
  with_displayText m
    (JS.slice 0 (Z.of_nat (JS.length (displayText m)) + 1) (text m)).

(** A message that is not the loader of a pending request: it has a real
    timestamp, is not marked as loading and shows a prefix of its text. *)
Definition settled (m : ChatMessage) : Prop :=
  timestamp m ≠ ""%string ∧ loading m = false
  ∧ is_prefix (displayText m) (text m).

(** The invariant of the reachable worlds: while a request is pending
    ([isProcessing]) the list ends with the one loader and one request is in
    flight; otherwise there is no loader and nothing is in flight.  All other
    messages are settled. *)

Definition tail_of (processing : bool) : list ChatMessage :=
  if processing then [loadingMessage] else [].

Record Inv (w : World) : Prop := {
  inv_messages :
    ∃ old, Forall settled old
           ∧ messages (window w) = old ++ tail_of (isProcessing (window w));
  inv_inflight :
    List.length (inflight w) = if isProcessing (window w) then 1%nat else 0%nat
}.

(** The events that settle a request. *)
Definition settles (e : Event) : bool :=
  match e with FetchSettles _ _ => true | _ => false end.


(** ** Sample runs of the widget *)

(** A first question is typed and sent. *)
Definition asked : list Event := [Change "yo"; Submit 1000].

(** The answer arrives. *)
Definition answered : list Event :=
  asked ++ [FetchSettles (Resolved true (Data "hi")) 2000].

(** The answer "hi" arrives and its first character is revealed; then the
    user sends a second question before the second character appears. *)
Definition abandoned : list Event :=
  answered ++ [TimerFires; Change "x"; Submit 3000].

(** The answer of [abandoned], as it is shown from then on. *)
Definition stuck : ChatMessage :=
  {| sender := ai; text := "hi"; timestamp := "2000"; displayText := "h";
     isImage := Some false; isLoading := None |}.

(** An input with a leading blank. *)
Definition padded : list Event := [Change " hi"; Submit 1000].

(** ** [formatResponseText]

    The pattern [text.split] is called with on line 21 is built from
    literals, the dot, a lazy star, sequence and alternation, and is matched
    by backtracking in the order ECMAScript prescribes. *)

Inductive atom :=
| Lit (c : ascii)
| Dot.

Inductive regex :=
| One (a : atom)
| LazyStar (a : atom)
| Seq (r1 r2 : regex)
| Alt (r1 r2 : regex).

(** Line terminators below 256: LF and CR.  The dot matches anything else. *)
Definition isLineTerminator (c : ascii) : bool :=
  let n := nat_of_ascii c in ((n =? 10) || (n =? 13))%nat.

Definition atomMatches (a : atom) (c : ascii) : bool :=
  match a with
  | Lit c' => Ascii.eqb c c'
  | Dot => negb (isLineTerminator c)
  end.

(** A matcher takes the rest of the input and a continuation and gives the
    input left after the whole match, if there is one.  The lazy star first
    tries to go on without consuming and consumes one more character only
    when that fails. *)
Fixpoint lazyStar (a : atom) (s : string) (k : string → option string)
  : option string :=
  match k s with
  | Some rest => Some rest
  | None =>
      match s with
      | String c s' => if atomMatches a c then lazyStar a s' k else None
      | EmptyString => None
      end
  end.

Fixpoint matcher (r : regex) (s : string) (k : string → option string)
  : option string :=
  match r with
  | One a =>
      match s with
      | String c s' => if atomMatches a c then k s' else None
      | EmptyString => None
      end
  | LazyStar a => lazyStar a s k
  | Seq r1 r2 => matcher r1 s (λ s', matcher r2 s' k)
  | Alt r1 r2 =>
      match matcher r1 s k with
      | Some rest => Some rest
      | None => matcher r2 s k
      end
  end.

Definition asterisk : regex := One (Lit "*").

(** The pattern of line 21: two asterisks, lazily anything, two asterisks;
    or else one asterisk, lazily anything, one asterisk.  Its one capturing
    group spans the whole pattern, so what it captures is the match. *)
Definition pattern : regex :=
  Alt (Seq asterisk (Seq asterisk (Seq (LazyStar Dot) (Seq asterisk asterisk))))
      (Seq asterisk (Seq (LazyStar Dot) asterisk)).

(** A match attempt anchored at index [q]: the index where the match ends. *)
Definition matchAt (r : regex) (S : string) (q : nat) : option nat :=
  match matcher r (substring q (String.length S - q) S) Some with
  | Some rest => Some (String.length S - String.length rest)%nat
  | None => None
  end.

(** The loop of RegExp.prototype[Symbol.split] without a limit: [p] is where
    the current piece starts, [q] where the next match is tried.  Every
    iteration uses one unit of [fuel]. *)
Fixpoint splitLoop (fuel : nat) (r : regex) (S : string) (p q : nat)
  : option (list string) :=
  if (q <? String.length S)%nat then
    match fuel with
    | O => None
    | Datatypes.S fuel' =>
        match matchAt r S q with
        | None => splitLoop fuel' r S p (q + 1)
        | Some e =>
            if (e =? p)%nat then splitLoop fuel' r S p (q + 1)
            else
              rest ← splitLoop fuel' r S e e ;
              Some (substring p (q - p) S :: substring q (e - q) S :: rest)
        end
    end
  else Some [substring p (String.length S - p) S].

(** [S.split(r)] for a pattern [r] whose one group spans it. *)
Definition split (r : regex) (S : string) : option (list string) :=
  if (String.length S =? 0)%nat then
    match matchAt r S 0 with
    | Some _ => Some []
    | None => Some [S]
    end
  else splitLoop (2 * String.length S + 1) r S 0 0.

(** The elements [formatResponseText] returns, with their [key] and text. *)
Inductive Element :=
| strong (key : nat) (children : string)
| em (key : nat) (children : string)
| span (key : nat) (children : string).

(** The callback of [.map]. *)
Definition formatPart (index : nat) (part : string) : Element :=
  if JS.startsWith "**" part && JS.endsWith "**" part then
    strong index (JS.slice 2 (-2) part)
  else if JS.startsWith "*" part && JS.endsWith "*" part then
    em index (JS.slice 1 (-1) part)
  else span index part.

Definition formatResponseText (text : string) : option (list Element) :=
  imap formatPart <$> split pattern text.

(** A continuation that never gives back more input than it was given. *)
Definition consuming (k : string → option string) : Prop :=
  ∀ s rest, k s = Some rest → (String.length rest ≤ String.length s)%nat.

(** A text without any asterisk. *)
Fixpoint plain (s : string) : bool :=
  match s with
  | EmptyString => true
  | String c s' => negb (Ascii.eqb c "*") && plain s'
  end.

(** ** [formatTimestamp]

    [Number(timestamp)], [new Date(number)] and [toLocaleTimeString] after
    ECMA-262.  None of the three throws on the arguments [formatTimestamp]
    passes: a string that is no numeric literal converts to NaN, a number
    out of range makes an invalid date, and an invalid date is printed as
    such. *)

(** A Number value: NaN, an infinity, or a finite double given by its
    exact value. *)
Inductive number :=
| NaN
| Infinity (negative : bool)
| Finite (q : Q).

(** The value of [c] as a digit in the given base. *)
Definition digitValue (base : nat) (c : ascii) : option nat :=
  let n := nat_of_ascii c in
  let v := if ((48 <=? n) && (n <=? 57))%nat then Some (n - 48)%nat
           else if ((97 <=? n) && (n <=? 102))%nat then Some (n - 87)%nat
           else if ((65 <=? n) && (n <=? 70))%nat then Some (n - 55)%nat
           else None in
  match v with
  | Some d => if (d <? base)%nat then Some d else None
  | None => None
  end.

(** The longest run of digits at the front of [s], and what follows it. *)
Fixpoint digits (base : nat) (s : string) : list nat * string :=
  match s with
  | String c s' =>
      match digitValue base c with
      | Some d => let (ds, rest) := digits base s' in (d :: ds, rest)
      | None => ([], s)
      end
  | EmptyString => ([], s)
  end.

Definition valueOf (base : Z) (ds : list nat) : Z :=
  foldl (λ acc d, acc * base + Z.of_nat d) 0 ds.

Definition parseSign (s : string) : bool * string :=
  match s with
  | String "+" s' => (false, s')
  | String "-" s' => (true, s')
  | _ => (false, s)
  end.

(** What follows the mantissa: nothing, or [e] or [E], an optional sign and
    at least one digit. *)
Definition parseExponent (s : string) : option Z :=
  match s with
  | EmptyString => Some 0
  | String c s' =>
      if Ascii.eqb c "e" || Ascii.eqb c "E" then
        let (negative, s'') := parseSign s' in
        match digits 10 s'' with
        | (d :: ds, EmptyString) =>
            Some (if negative then - valueOf 10 (d :: ds) else valueOf 10 (d :: ds))
        | _ => None
        end
      else None
  end.

(** StrUnsignedDecimalLiteral other than Infinity: the digits of the
    mantissa as an integer, and the power of ten it is scaled by. *)
Definition parseDecimal (s : string) : option (Z * Z) :=
  let (int, s1) := digits 10 s in
  let (frac, s2) := match s1 with
                    | String "." s' => digits 10 s'
                    | _ => ([], s1)
                    end in
  match int ++ frac with
  | [] => None
  | ds =>
      match parseExponent s2 with
      | Some e => Some (valueOf 10 ds, e - Z.of_nat (List.length frac))
      | None => None
      end
  end.

(** NonDecimalIntegerLiteral: 0x, 0o or 0b and at least one digit. *)
Definition parseNonDecimal (s : string) : option Z :=
  match s with
  | String "0" (String c s') =>
      let base := if Ascii.eqb c "x" || Ascii.eqb c "X" then 16%nat
                  else if Ascii.eqb c "o" || Ascii.eqb c "O" then 8%nat
                  else if Ascii.eqb c "b" || Ascii.eqb c "B" then 2%nat
                  else 0%nat in
      match digits base s' with
      | (d :: ds, EmptyString) => Some (valueOf (Z.of_nat base) (d :: ds))
      | _ => None
      end
  | _ => None
  end.

(** [n / d] rounded to the nearest integer, ties to even; [0 < d]. *)
Definition divRoundEven (n d : Z) : Z :=
  let q := n / d in
  let r := n mod d in
  if 2 * r <? d then q
  else if d <? 2 * r then q + 1
  else if Z.even q then q else q + 1.

(** [x * 2 ^ e] for any integer [e]. *)
Definition scale2 (x : Z) (e : Z) : Q :=
  if 0 <=? e then inject_Z (x * 2 ^ e) else Qmake x (Z.to_pos (2 ^ (- e))).

(** The double nearest to [n / d], for [0 <= n] and [0 < d]: 53 significant
    bits, exponent at least -1074, ties to even, infinite from 2^1024 on. *)
Definition roundToDouble (negative : bool) (n d : Z) : number :=
  if n =? 0 then Finite 0
  else
    let L := Z.log2 n - Z.log2 d in
    let atLeast := if 0 <=? L then d * 2 ^ L <=? n else d <=? n * 2 ^ (- L) in
    let e := Z.max ((if atLeast then L else L - 1) - 52) (-1074) in
    let m := if 0 <=? e then divRoundEven n (d * 2 ^ e)
             else divRoundEven (n * 2 ^ (- e)) d in
    if (0 <=? e) && (2 ^ 1024 <=? m * 2 ^ e) then Infinity negative
    else Finite (scale2 (if negative then - m else m) e).

(** [Number(s)] on a string: StringToNumber. *)
Definition Number (s : string) : number :=
  let t := JS.trim s in
  match t with
  | EmptyString => Finite 0
  | _ =>
      match parseNonDecimal t with
      | Some z => roundToDouble false z 1
      | None =>
          let (negative, u) := parseSign t in
          if String.eqb u "Infinity" then Infinity negative
          else
            match parseDecimal u with
            | Some (m, e) =>
                if 0 <=? e then roundToDouble negative (m * 10 ^ e) 1
                else roundToDouble negative m (10 ^ (- e))
            | None => NaN
            end
      end
  end.

(** A Date object is its time value: an integral number of milliseconds, or
    [None] for the invalid date whose time value is NaN. *)
Definition Date : Type := option Z.

(** TimeClip *)
Definition TimeClip (v : number) : Date :=
  match v with
  | Finite q =>
      if Qle_bool (Qabs q) (inject_Z 8640000000000000)
      then Some (Z.quot (Qnum q) (Zpos (Qden q)))
      else None
  | _ => None
  end.

(** [new Date(v)] for a Number [v], and [new Date()] at the time [now]. *)
Definition Date_of_number (v : number) : Date := TimeClip v.
Definition Date_now (now : Z) : Date := Some now.

(** [try { body } catch { handler }] on computations without state. *)
Definition try_catch {A} (body handler : completion A) : completion A :=
  match body with
  | Normal a => Normal a
  | Throw => handler
  end.

Section FormatTimestamp.

(** What the host prints for a valid time value under the options
    [{ hour: "2-digit", minute: "2-digit" }], in its locale and time zone. *)
Variable localeTime : Z → string.

(** [date.toLocaleTimeString([], options)] *)
Definition toLocaleTimeString (date : Date) : string :=
  match date with
  | None => "Invalid Date"
  | Some tv => localeTime tv
  end.

(** [formatTimestamp]; [now] is the current time, read by [new Date()]. *)
Definition formatTimestamp (now : Z) (timestamp : string) : completion string :=
  try_catch
    (let date := Date_of_number (Number timestamp) in
     Normal (toLocaleTimeString date))
    (Normal (toLocaleTimeString (Date_now now))).

End FormatTimestamp.

(** A host that prints the time of day in UTC on a 24-hour clock. *)
Definition twoDigits (n : Z) : string :=
  (if n <? 10 then "0" else "") +:+ JS.numberToString n.

Definition utcTime (tv : Z) : string :=
  let minutes := (tv / 60000) mod 1440 in
  twoDigits (minutes / 60) +:+ ":" +:+ twoDigits (minutes mod 60).

(** ** The landing page [Home]

    The effect of [Home] depends on [connected] and [router]: React runs it
    after the first render and after every render in which one of the two
    differs from the render before.  A render is described by the value of
    [connected], the identity of the [router] object and the
    [window.location.pathname] at the time the effect runs. *)

Record Render := {
  connected : bool;
  router : nat;
  pathname : string
}.

(** The paths handed to [router.push] by the effect of
    src/app/page.tsx ... *)
Definition Home_effect (r : Render) : list string :=
  if connected r then ["/dashboard"] else [].

(** ... and by the effect of the other [Home], which looks at the path. *)
Definition Home_effect_onHomepage (r : Render) : list string :=
  if connected r && String.eqb (pathname r) "/" then ["/dashboard"] else [].

Definition depsChanged (prev : option (bool * nat)) (r : Render) : bool :=
  match prev with
  | None => true
  | Some (c, rt) => negb (Bool.eqb c (connected r) && Nat.eqb rt (router r))
  end.

(** One render: the dependencies remembered for the next one and the
    navigations the effect asked for. *)
Definition commit (effect : Render → list string)
           (prev : option (bool * nat)) (r : Render)
  : option (bool * nat) * list string :=
  if depsChanged prev r then (Some (connected r, router r), effect r)
  else (prev, []).

(** The navigations of a sequence of renders, render by render. *)
Fixpoint navigations (effect : Render → list string)
         (prev : option (bool * nat)) (rs : list Render) : list (list string) :=
  match rs with
  | [] => []
  | r :: rs' =>
      let (deps, pushed) := commit effect prev r in
      pushed :: navigations effect deps rs'
  end.

(** ** What [ChatWindow] renders (lines 148-239) *)

(** [disabled] of the send button (line 231) and of the textarea (line 217). *)
Definition buttonDisabled (w : ChatWindow) : bool :=
  negb (JS.truthy (JS.trim (input w))) || isProcessing w.

Definition textareaDisabled (w : ChatWindow) : bool := isProcessing w.

(** The content of a message bubble (lines 176-198): the spinner, the image
    whose source is the text, or the formatted display text, followed by the
    blinking cursor when the message comes from the assistant and shows less
    than its text. *)
Inductive Bubble :=
| Spinner
| Picture (src : string)
| Prose (content : option (list Element)) (cursor : bool).

Definition bubble (msg : ChatMessage) : Bubble :=
  if JS.truthy_opt (isLoading msg) then Spinner
  else if JS.truthy_opt (isImage msg) then Picture (text msg)
  else Prose (formatResponseText (displayText msg))
             (bool_decide (sender msg = ai)
              && (JS.length (displayText msg) <? JS.length (text msg))%nat).

(** The time line under the bubble (lines 201-205), absent for a loader. *)
Definition timeLine (localeTime : Z → string) (now : Z) (msg : ChatMessage)
  : option (completion string) :=
  if negb (JS.truthy_opt (isLoading msg))
  then Some (formatTimestamp localeTime now (timestamp msg))
  else None.

(** ** Vocabulary of the further properties *)

(** A string of white space only (the empty string included). *)
Fixpoint blank (s : string) : bool :=
  match s with
  | EmptyString => true
  | String c s' => JS.isWhiteSpace c && blank s'
  end.

(** Questions and answers alternate: the messages at even positions are the
    user's, those at odd positions the assistant's, and the list has even
    length. *)
Definition alternating (l : list ChatMessage) : Prop :=
  Nat.even (List.length l) = true
  ∧ ∀ i m, l !! i = Some m → sender m = if Nat.even i then user else ai.

(** The answer to [response], shown in full. *)
Definition revealedAnswer (response : string) (now : Z) : ChatMessage :=
  {| sender := ai; text := response; displayText := response;
     timestamp := JS.numberToString now;
     isImage := Some false; isLoading := None |}.

(** The image whose locator is [response]. *)
Definition imageAnswer (response : string) (now : Z) : ChatMessage :=
  {| sender := ai; text := response; displayText := "";
     timestamp := JS.numberToString now;
     isImage := Some true; isLoading := None |}.

(** Reading back the inside of a JSON string literal, up to its closing
    quote, as JSON.parse does with what [quoteUnits] writes: a backslash
    introduces one of the short escapes or [u] and four hexadecimal digits.
    It serves to show that [quoteUnits] is unambiguous. *)
Definition unhex (c : ascii) : nat :=
  let n := nat_of_ascii c in if (n <? 58)%nat then (n - 48)%nat else (n - 87)%nat.

Definition unescape (x : ascii) : ascii :=
  if Ascii.eqb x "b" then ascii_of_nat 8
  else if Ascii.eqb x "t" then ascii_of_nat 9
  else if Ascii.eqb x "n" then ascii_of_nat 10
  else if Ascii.eqb x "f" then ascii_of_nat 12
  else if Ascii.eqb x "r" then ascii_of_nat 13
  else x.

Fixpoint readUnits (s : string) : string :=
  match s with
  | EmptyString => EmptyString
  | String c s1 =>
      if Ascii.eqb c dquote then EmptyString
      else if Ascii.eqb c backslash then
        match s1 with
        | EmptyString => EmptyString
        | String x s2 =>
            if Ascii.eqb x "u" then
              match s2 with
              | String _ (String _ (String h (String l s3))) =>
                  String (ascii_of_nat (16 * unhex h + unhex l)) (readUnits s3)
              | _ => EmptyString
              end
            else String (unescape x) (readUnits s2)
        end
      else String c (readUnits s1)
  end.

(** The decimal digits of a [Decimal.uint], most significant first, the
    string that writes a list of digits, and the strings without any white
    space: the vocabulary for reading back what [numberToString] prints. *)
Fixpoint udigits (d : Decimal.uint) : list nat :=
  match d with
  | Decimal.Nil => []
  | Decimal.D0 d' => 0%nat :: udigits d'
  | Decimal.D1 d' => 1%nat :: udigits d'
  | Decimal.D2 d' => 2%nat :: udigits d'
  | Decimal.D3 d' => 3%nat :: udigits d'
  | Decimal.D4 d' => 4%nat :: udigits d'
  | Decimal.D5 d' => 5%nat :: udigits d'
  | Decimal.D6 d' => 6%nat :: udigits d'
  | Decimal.D7 d' => 7%nat :: udigits d'
  | Decimal.D8 d' => 8%nat :: udigits d'
  | Decimal.D9 d' => 9%nat :: udigits d'
  end.

Fixpoint digitString (ds : list nat) : string :=
  match ds with
  | [] => EmptyString
  | d :: ds' => String (ascii_of_nat (48 + d)) (digitString ds')
  end.

Fixpoint solid (s : string) : bool :=
  match s with
  | EmptyString => true
  | String c s' => negb (JS.isWhiteSpace c) && solid s'
  end.

(** The largest time value of a Date, 8.64e15 ms on either side of the
    epoch. *)
Definition maxTime : Z := 8640000000000000.

(** A text without line terminators. *)
Fixpoint oneLine (s : string) : bool :=
  match s with
  | EmptyString => true
  | String c s' => negb (isLineTerminator c) && oneLine s'
  end.

(** ** Vocabulary for [Home] and for the time lines of the widget *)





(** * Properties *)

(** ** Strings *)

Lemma append_cons (c : ascii) (s t : string) :
  String c s +:+ t = String c (s +:+ t).
Proof. reflexivity. Qed.

Lemma append_empty_r (s : string) : s +:+ "" = s.
Proof. induction s as [|c s IH]; [done | by rewrite append_cons, IH]. Qed.

Lemma length_append (s t : string) :
  String.length (s +:+ t) = (String.length s + String.length t)%nat.
Proof. induction s as [|c s IH]; [done | rewrite append_cons; cbn; by rewrite IH]. Qed.

Lemma is_prefix_refl (s : string) : is_prefix s s.
Proof. exists ""%string. by rewrite append_empty_r. Qed.

Lemma is_prefix_empty (s : string) : is_prefix "" s.
Proof. by exists s. Qed.

Lemma is_prefix_length (d t : string) :
  is_prefix d t → (String.length d ≤ String.length t)%nat.
Proof. intros [rest ->]. rewrite length_append. lia. Qed.

Lemma is_prefix_same_length (d t : string) :
  is_prefix d t → String.length d = String.length t → d = t.
Proof.
  intros [rest ->] Hlen. rewrite length_append in Hlen.
  destruct rest as [|c rest]; [symmetry; apply append_empty_r | cbn in Hlen; lia].
Qed.

Lemma substring_0_prefix (k : nat) (t : string) : is_prefix (substring 0 k t) t.
Proof.
  revert k. induction t as [|c t IH]; intros [|k]; cbn.
  - apply is_prefix_empty.
  - apply is_prefix_empty.
  - apply is_prefix_empty.
  - destruct (IH k) as [rest Hrest]. exists rest. by rewrite append_cons, <- Hrest.
Qed.

Lemma substring_0_length (k : nat) (t : string) :
  (k ≤ String.length t)%nat → String.length (substring 0 k t) = k.
Proof.
  revert k. induction t as [|c t IH]; intros [|k] Hk; cbn in *; try done.
  - lia.
  - rewrite IH; [done | lia].
Qed.

Lemma slice_0_nat (n : nat) (t : string) :
  JS.slice 0 (Z.of_nat n) t = substring 0 (n `min` String.length t) t.
Proof.
  unfold JS.slice, JS.clampIndex, JS.length.
  replace (0 <? 0) with false by done.
  destruct (Z.ltb_spec (Z.of_nat n) 0) as [Hneg|_]; [lia|].
  rewrite Z.min_l by lia. cbn [Z.to_nat].
  f_equal. lia.
Qed.

(** One more character of [t] after the [n] already shown. *)
Lemma slice_next (n : nat) (t : string) :
  JS.slice 0 (Z.of_nat n + 1) t = substring 0 (S n `min` String.length t) t.
Proof. rewrite <- slice_0_nat. f_equal. lia. Qed.

Lemma numberToString_nonempty (n : Z) : JS.numberToString n ≠ ""%string.
Proof.
  unfold JS.numberToString.
  destruct (Z.to_int n) as [d|d]; cbn; [|done].
  destruct d; cbn; done.
Qed.

(** ** [sendMessage], equation by equation *)

Ltac act_unfold :=
  cbv [mbind mret Act_bind Act_ret setMessages setInput setIsProcessing
       throw try_catch_finally awaitFetch awaitJson];
  cbn [fst snd messages input isProcessing].

Section SendMessage.

Variable influencerName : string.

Lemma sendMessage_accepted (w : ChatWindow) (now : Z) :
  accepted w →
  sendMessage influencerName (input w) (isProcessing w) now w
  = ({| messages := messages w ++ [userMessage (input w) now; loadingMessage];
        input := ""; isProcessing := true |},
     Normal (Some (fetchRequest influencerName (input w)))).
Proof.
  intros [Htrim ->]. unfold sendMessage.
  destruct (JS.trim (input w)) eqn:E; [done|]. cbn [JS.truthy negb orb].
  by act_unfold.
Qed.

Lemma sendMessage_rejected (w : ChatWindow) (now : Z) :
  ¬ accepted w →
  sendMessage influencerName (input w) (isProcessing w) now w = (w, Normal None).
Proof.
  intros Hrej. unfold sendMessage.
  destruct (JS.trim (input w)) eqn:E; [done|].
  destruct (isProcessing w) eqn:P; [done|].
  exfalso. apply Hrej. split; [by rewrite E | done].
Qed.

Lemma sendMessage_resume_success (response : string) (now : Z) (w : ChatWindow) :
  sendMessage_resume influencerName (Resolved true (Data response)) now w
  = ({| messages :=
          List.map (λ msg, if isLoader msg then aiMessage influencerName response now
                           else msg) (messages w);
        input := input w; isProcessing := false |}, Normal ()).
Proof. reflexivity. Qed.

Lemma sendMessage_resume_failure (r : FetchResult) (now : Z) (w : ChatWindow) :
  failed r →
  sendMessage_resume influencerName r now w
  = ({| messages :=
          List.filter (λ msg, negb (isLoader msg)) (messages w) ++ [errorMessage now];
        input := input w; isProcessing := false |}, Normal ()).
Proof. destruct r as [|[] []]; done. Qed.

Lemma sendMessage_resume_isProcessing (r : FetchResult) (now : Z) (w : ChatWindow) :
  isProcessing (fst (sendMessage_resume influencerName r now w)) = false.
Proof. destruct r as [|[] []]; done. Qed.

End SendMessage.

(** ** The typing effect *)

Lemma insert_last {A} (l : list A) (x y : A) :
  <[(List.length (l ++ [x]) - 1)%nat := y]> (l ++ [x]) = l ++ [y].
Proof.
  rewrite length_app. cbn [List.length].
  replace (List.length l + 1 - 1)%nat with (List.length l + 0)%nat by lia.
  by rewrite insert_app_r.
Qed.

Lemma typingTick_snoc (lastMessage m : ChatMessage) (l : list ChatMessage) :
  typingTick lastMessage (l ++ [m])
  = Some (l ++ [with_displayText m
                  (JS.slice 0 (Z.of_nat (JS.length (displayText m)) + 1)
                            (text lastMessage))]).
Proof. unfold typingTick. by rewrite last_snoc, insert_last. Qed.

Lemma typingEffect_Some (l : list ChatMessage) (lastMessage : ChatMessage) :
  typingEffect l = Some lastMessage ↔
  (∃ l', l = l' ++ [lastMessage]) ∧ textual lastMessage
  ∧ (String.length (displayText lastMessage) < String.length (text lastMessage))%nat.
Proof.
  unfold typingEffect, textual, JS.length. split.
  - destruct (last l) as [m|] eqn:Hlast; [|done].
    destruct (bool_decide _) eqn:Hs; [|done].
    destruct (JS.truthy_opt (isLoading m)) eqn:Hl; [done|].
    destruct (JS.truthy_opt (isImage m)) eqn:Hi; [done|].
    destruct (Nat.ltb_spec (String.length (displayText m)) (String.length (text m)));
      [|done].
    cbn. intros [= <-]. apply bool_decide_eq_true in Hs.
    split; [by apply last_Some | done].
  - intros ([l' ->] & (Hs & Hl & Hi) & Hlen).
    rewrite last_snoc, Hl, Hi. rewrite bool_decide_eq_true_2 by done.
    cbn [negb andb].
    destruct (Nat.ltb_spec (String.length (displayText lastMessage))
                           (String.length (text lastMessage))); [done | lia].
Qed.

Lemma typingTick_armed (l : list ChatMessage) (lastMessage : ChatMessage) :
  typingEffect l = Some lastMessage → is_Some (typingTick lastMessage l).
Proof.
  intros ([l' ->] & _)%typingEffect_Some. rewrite typingTick_snoc. by eexists.
Qed.

Lemma typingEffect_None_loader (l : list ChatMessage) :
  typingEffect (l ++ [loadingMessage]) = None.
Proof. unfold typingEffect. by rewrite last_snoc. Qed.

Lemma reveal_length (m : ChatMessage) :
  (String.length (displayText m) < String.length (text m))%nat →
  String.length (displayText (reveal m)) = S (String.length (displayText m)).
Proof.
  intros Hlt. unfold reveal, JS.length. cbn [displayText with_displayText].
  rewrite slice_next, Nat.min_l by lia. apply substring_0_length. lia.
Qed.

Lemma reveal_prefix (m : ChatMessage) :
  is_prefix (displayText (reveal m)) (text (reveal m)).
Proof.
  unfold reveal, JS.length. cbn [displayText text with_displayText].
  rewrite slice_next. apply substring_0_prefix.
Qed.

(** ** The steps of the widget *)

Lemma settled_isLoader (m : ChatMessage) : settled m → isLoader m = false.
Proof. intros (Hts & _ & _). unfold isLoader. by apply String.eqb_neq. Qed.

Lemma map_settled (x : ChatMessage) (old : list ChatMessage) :
  Forall settled old →
  List.map (λ msg, if isLoader msg then x else msg) old = old.
Proof.
  induction 1 as [|m old Hm _ IH]; cbn; [done|].
  by rewrite (settled_isLoader m Hm), IH.
Qed.

Lemma lookup_map_keep {A} (f : A → A) (l : list A) (i : nat) (x : A) :
  l !! i = Some x → f x = x → List.map f l !! i = Some x.
Proof.
  revert i. induction l as [|y l IH]; intros [|i] Hi Hx; cbn in *; try done.
  - by injection Hi as ->; rewrite Hx.
  - by apply IH.
Qed.

Lemma filter_settled (old : list ChatMessage) :
  Forall settled old → List.filter (λ msg, negb (isLoader msg)) old = old.
Proof.
  induction 1 as [|m old Hm _ IH]; cbn; [done|].
  by rewrite (settled_isLoader m Hm), IH.
Qed.

Lemma loaders_settled (old : list ChatMessage) :
  Forall settled old → loaders old = 0%nat.
Proof.
  unfold loaders. induction 1 as [|m old (_ & Hm & _) _ IH]; cbn; [done|].
  by rewrite Hm.
Qed.

Lemma loaders_app (l1 l2 : list ChatMessage) :
  loaders (l1 ++ l2) = (loaders l1 + loaders l2)%nat.
Proof. unfold loaders. by rewrite List.filter_app, length_app. Qed.

Lemma settled_userMessage (s : string) (now : Z) : settled (userMessage s now).
Proof.
  split; [apply numberToString_nonempty | split; [done | apply is_prefix_refl]].
Qed.

Lemma settled_errorMessage (now : Z) : settled (errorMessage now).
Proof.
  split; [apply numberToString_nonempty | split; [done | apply is_prefix_refl]].
Qed.

Lemma settled_aiMessage (name response : string) (now : Z) :
  settled (aiMessage name response now).
Proof.
  split; [apply numberToString_nonempty | split; [done |]].
  cbn. destruct (String.eqb name "artifex"); apply is_prefix_empty.
Qed.

Lemma settled_reveal (m : ChatMessage) : settled m → settled (reveal m).
Proof.
  intros (Hts & Hl & _). split; [done | split; [done | apply reveal_prefix]].
Qed.

Lemma accepted_dec (w : ChatWindow) : accepted w ∨ ¬ accepted w.
Proof.
  unfold accepted.
  destruct (decide (JS.trim (input w) = ""%string)) as [Hblank|Hfull].
  - right. by intros [? _].
  - destruct (isProcessing w); [right; by intros [_ ?] | by left].
Qed.

Ltac step_unfold := cbn [step].
Ltac run_unfold := unfold run.

Section Steps.

Variable influencerName : string.

Local Abbreviation step := (step influencerName).
Local Abbreviation run := (run influencerName).
Local Abbreviation reachable := (reachable influencerName).

Lemma step_Change (value : string) (w : World) :
  step (Change value) w
  = {| window := {| messages := messages (window w); input := value;
                    isProcessing := isProcessing (window w) |};
       inflight := inflight w |}.
Proof. reflexivity. Qed.

Lemma step_Submit_accepted (now : Z) (w : World) :
  accepted (window w) →
  step (Submit now) w
  = {| window :=
         {| messages := messages (window w)
                        ++ [userMessage (input (window w)) now; loadingMessage];
            input := ""; isProcessing := true |};
       inflight := inflight w ++ [fetchRequest influencerName (input (window w))] |}.
Proof.
  intros Hacc. step_unfold.
  by rewrite (sendMessage_accepted influencerName _ now Hacc).
Qed.

Lemma step_Submit_rejected (now : Z) (w : World) :
  ¬ accepted (window w) → step (Submit now) w = w.
Proof.
  intros Hrej. step_unfold.
  rewrite (sendMessage_rejected influencerName _ now Hrej). by destruct w.
Qed.

Lemma step_TimerFires_armed (w : World) (l : list ChatMessage) (m : ChatMessage) :
  messages (window w) = l ++ [m] →
  textual m →
  (String.length (displayText m) < String.length (text m))%nat →
  step TimerFires w
  = {| window := {| messages := l ++ [reveal m]; input := input (window w);
                    isProcessing := isProcessing (window w) |};
       inflight := inflight w |}.
Proof.
  intros Hmsgs Htext Hlt. step_unfold.
  assert (typingEffect (messages (window w)) = Some m) as ->.
  { apply typingEffect_Some. eauto. }
  act_unfold. by rewrite Hmsgs, typingTick_snoc.
Qed.

Lemma step_TimerFires_idle (w : World) :
  typingEffect (messages (window w)) = None → step TimerFires w = w.
Proof. intros Hidle. step_unfold. by rewrite Hidle. Qed.

Lemma step_FetchSettles_none (r : FetchResult) (now : Z) (w : World) :
  inflight w = [] → step (FetchSettles r now) w = w.
Proof. intros Hnone. step_unfold. by rewrite Hnone. Qed.

Lemma step_FetchSettles_some (r : FetchResult) (now : Z) (w : World)
      (req : Request) (rest : list Request) :
  inflight w = req :: rest →
  step (FetchSettles r now) w
  = {| window := fst (sendMessage_resume influencerName r now (window w));
       inflight := rest |}.
Proof. intros Hsome. step_unfold. by rewrite Hsome. Qed.

Lemma run_nil (w : World) : run [] w = w.
Proof. reflexivity. Qed.

Lemma run_cons (e : Event) (evs : list Event) (w : World) :
  run (e :: evs) w = run evs (step e w).
Proof. reflexivity. Qed.

Lemma run_app (evs1 evs2 : list Event) (w : World) :
  run (evs1 ++ evs2) w = run evs2 (run evs1 w).
Proof. run_unfold. apply foldl_app. Qed.

Lemma reachable_start : reachable start.
Proof. by exists []. Qed.

Lemma reachable_step (e : Event) (w : World) : reachable w → reachable (step e w).
Proof. intros [evs <-]. exists (evs ++ [e]). by rewrite run_app. Qed.

Lemma reachable_run (evs : list Event) (w : World) :
  reachable w → reachable (run evs w).
Proof. intros [evs0 <-]. exists (evs0 ++ evs). by rewrite run_app. Qed.

(** Induction over the events that lead to a reachable world. *)
Lemma reachable_ind (P : World → Prop) :
  P start → (∀ e w, reachable w → P w → P (step e w)) →
  ∀ w, reachable w → P w.
Proof.
  intros Hstart Hstep w [evs <-].
  induction evs as [|e evs IH] using rev_ind; [done|].
  rewrite run_app. apply Hstep; [by exists evs | done].
Qed.

End Steps.

(** ** The invariant holds in every reachable world *)

Section Invariant.

Variable influencerName : string.

Local Abbreviation step := (step influencerName).
Local Abbreviation run := (run influencerName).
Local Abbreviation reachable := (reachable influencerName).

Lemma Inv_start : Inv start.
Proof. split; [by exists [] | done]. Qed.

(** In a world that satisfies the invariant a settling request finds the
    loader at the end of the list and replaces it. *)
Lemma step_FetchSettles_pending (r : FetchResult) (now : Z) (w : World)
      (old : list ChatMessage) :
  Inv w → Forall settled old →
  messages (window w) = old ++ [loadingMessage] →
  isProcessing (window w) = true →
  step (FetchSettles r now) w
  = {| window :=
         {| messages := old ++ [match r with
                                | Resolved true (Data response) =>
                                    aiMessage influencerName response now
                                | _ => errorMessage now
                                end];
            input := input (window w); isProcessing := false |};
       inflight := [] |}.
Proof.
  intros [_ Hfl] Hold Hmsgs Hproc. rewrite Hproc in Hfl.
  destruct (inflight w) as [|req [|? ?]] eqn:Hreqs; try done.
  rewrite (step_FetchSettles_some _ _ _ _ _ _ Hreqs).
  assert (failed r ∨ ∃ response, r = Resolved true (Data response)) as [Hfail|[response ->]].
  { destruct r as [|[] []]; cbn; eauto. }
  - rewrite sendMessage_resume_failure by done. cbn [fst]. rewrite Hmsgs.
    rewrite List.filter_app, filter_settled by done. cbn.
    rewrite app_nil_r. by destruct r as [|[] []].
  - rewrite sendMessage_resume_success. cbn [fst]. rewrite Hmsgs.
    rewrite List.map_app, map_settled by done. done.
Qed.

Lemma step_Inv (e : Event) (w : World) : Inv w → Inv (step e w).
Proof.
  intros HInv. pose proof HInv as [(old & Hold & Hmsgs) Hfl].
  destruct e as [value|now| |r now].
  - rewrite step_Change. split; cbn; eauto.
  - destruct (accepted_dec (window w)) as [Hacc|Hrej].
    + rewrite step_Submit_accepted by done. destruct Hacc as [_ Hproc].
      rewrite Hproc in *. cbn in Hmsgs. rewrite app_nil_r in Hmsgs.
      split; cbn.
      * exists (old ++ [userMessage (input (window w)) now]). split.
        -- apply Forall_app. split; [done|].
           apply Forall_singleton, settled_userMessage.
        -- by rewrite Hmsgs, <- app_assoc.
      * rewrite length_app, Hfl. done.
    + by rewrite step_Submit_rejected.
  - destruct (typingEffect (messages (window w))) as [m|] eqn:Harmed.
    + apply typingEffect_Some in Harmed as ([l Hl] & Htext & Hlt).
      rewrite (step_TimerFires_armed _ _ _ _ Hl Htext Hlt).
      destruct (isProcessing (window w)) eqn:Hproc; cbn in Hmsgs.
      * rewrite Hl in Hmsgs. apply app_inj_tail in Hmsgs as [_ ->].
        by destruct Htext as (_ & ? & _).
      * rewrite app_nil_r in Hmsgs. subst old. rewrite Hl in Hold.
        apply Forall_app in Hold as [Hl' Hm]. inversion_clear Hm as [|? ? Hm' _].
        split; cbn; [|done].
        exists (l ++ [reveal m]). rewrite app_nil_r. split; [|done].
        apply Forall_app. split; [done|].
        by apply Forall_singleton, settled_reveal.
    + by rewrite step_TimerFires_idle.
  - destruct (isProcessing (window w)) eqn:Hproc; cbn in Hmsgs.
    + rewrite (step_FetchSettles_pending r now w old) by done.
      split; cbn; [|done].
      exists (old ++ [match r with
                      | Resolved true (Data response) =>
                          aiMessage influencerName response now
                      | _ => errorMessage now
                      end]).
      rewrite app_nil_r. split; [|done].
      apply Forall_app. split; [done|]. apply Forall_singleton.
      destruct r as [|[] []];
        auto using settled_errorMessage, settled_aiMessage.
    + rewrite step_FetchSettles_none; [done|].
      by destruct (inflight w).
Qed.

Lemma reachable_Inv (w : World) : reachable w → Inv w.
Proof.
  revert w. apply reachable_ind; [apply Inv_start|].
  intros e w _. apply step_Inv.
Qed.

Lemma Inv_run (evs : list Event) (w : World) : Inv w → Inv (run evs w).
Proof.
  revert w. induction evs as [|e evs IH]; intros w HInv; [done|].
  rewrite run_cons. by apply IH, step_Inv.
Qed.

End Invariant.

(** ** What a step can change *)

Section Frame.

Variable influencerName : string.

Local Abbreviation step := (step influencerName).
Local Abbreviation run := (run influencerName).
Local Abbreviation reachable := (reachable influencerName).

(** A step rewrites at most the last message and appends after it. *)
Lemma step_changes_only_end (e : Event) (w : World) :
  Inv w →
  ∃ l x y, messages (window w) = l ++ x
           ∧ messages (window (step e w)) = l ++ y
           ∧ (List.length x ≤ 1)%nat ∧ (List.length x ≤ List.length y)%nat.
Proof.
  intros HInv. pose proof HInv as [(old & Hold & Hmsgs) Hfl].
  assert (∃ l x y, messages (window w) = l ++ x ∧ messages (window w) = l ++ y
                   ∧ (List.length x ≤ 1)%nat ∧ (List.length x ≤ List.length y)%nat)
    as Hsame.
  { exists (messages (window w)), [], []. rewrite app_nil_r. cbn. auto. }
  destruct e as [value|now| |r now].
  - by rewrite step_Change.
  - destruct (accepted_dec (window w)) as [Hacc|Hrej].
    + rewrite step_Submit_accepted by done. cbn.
      exists (messages (window w)), [], [userMessage (input (window w)) now; loadingMessage].
      rewrite app_nil_r. cbn. auto with lia.
    + by rewrite step_Submit_rejected.
  - destruct (typingEffect (messages (window w))) as [m|] eqn:Harmed.
    + apply typingEffect_Some in Harmed as ([l Hl] & Htext & Hlt).
      rewrite (step_TimerFires_armed _ _ _ _ Hl Htext Hlt). cbn.
      exists l, [m], [reveal m]. auto.
    + by rewrite step_TimerFires_idle.
  - destruct (isProcessing (window w)) eqn:Hproc; cbn in Hmsgs.
    + rewrite (step_FetchSettles_pending influencerName r now w old) by done. cbn.
      eexists old, [loadingMessage], [_]. auto.
    + rewrite step_FetchSettles_none; [done|]. by destruct (inflight w).
Qed.

Lemma step_keeps_earlier (e : Event) (w : World) (i : nat) :
  Inv w → (S i < List.length (messages (window w)))%nat →
  messages (window (step e w)) !! i = messages (window w) !! i
  ∧ (S i < List.length (messages (window (step e w))))%nat.
Proof.
  intros HInv Hi.
  destruct (step_changes_only_end e w HInv) as (l & x & y & Hw & Hw' & Hx & Hxy).
  rewrite Hw in *. rewrite Hw'. rewrite !length_app in *.
  rewrite !lookup_app_l by lia. split; [done | lia].
Qed.

Lemma run_keeps_earlier (evs : list Event) (w : World) (i : nat) :
  Inv w → (S i < List.length (messages (window w)))%nat →
  messages (window (run evs w)) !! i = messages (window w) !! i.
Proof.
  revert w. induction evs as [|e evs IH]; intros w HInv Hi; [done|].
  rewrite run_cons.
  destruct (step_keeps_earlier e w i HInv Hi) as [Heq Hi'].
  rewrite IH; [done | by apply step_Inv | done].
Qed.

(** While a request is pending, nothing but its settling changes the
    message list, the flag or the requests in flight. *)
Lemma pending_stable (e : Event) (w : World) (l : list ChatMessage) :
  isProcessing (window w) = true →
  messages (window w) = l ++ [loadingMessage] →
  settles e = false →
  isProcessing (window (step e w)) = true
  ∧ messages (window (step e w)) = messages (window w)
  ∧ inflight (step e w) = inflight w.
Proof.
  intros Hproc Hmsgs Hns. destruct e as [value|now| |r now]; [| | |done].
  - by rewrite step_Change.
  - rewrite step_Submit_rejected; [done|]. intros [_ Hfree]. congruence.
  - rewrite step_TimerFires_idle; [done|]. rewrite Hmsgs.
    apply typingEffect_None_loader.
Qed.

Lemma pending_stable_run (evs : list Event) (w : World) (l : list ChatMessage) :
  isProcessing (window w) = true →
  messages (window w) = l ++ [loadingMessage] →
  Forall (λ e, settles e = false) evs →
  isProcessing (window (run evs w)) = true
  ∧ messages (window (run evs w)) = messages (window w)
  ∧ inflight (run evs w) = inflight w.
Proof.
  intros Hproc Hmsgs Hevs. revert w Hproc Hmsgs.
  induction Hevs as [|e evs He _ IH]; intros w Hproc Hmsgs; [done|].
  rewrite run_cons.
  destruct (pending_stable e w l Hproc Hmsgs He) as (Hproc' & Hmsgs' & Hfl').
  destruct (IH (step e w)) as (? & ? & ?); [done | congruence |].
  repeat split; congruence.
Qed.

End Frame.


(** ** The properties of the chat widget *)

Section ChatWidgetProperties.

Variable influencerName : string.

Local Abbreviation step := (step influencerName).
Local Abbreviation run := (run influencerName).
Local Abbreviation reachable := (reachable influencerName).

Lemma run_ticks_last (n : nat) (w : World) (l : list ChatMessage) (m : ChatMessage) :
  messages (window w) = l ++ [m] →
  textual m →
  is_prefix (displayText m) (text m) →
  (String.length (text m) - String.length (displayText m))%nat = n →
  messages (window (run (ticks n) w)) = l ++ [with_displayText m (text m)].
Proof.
  revert w m. induction n as [|n IH]; intros w m Hmsgs Htext Hpre Hn.
  - cbn. rewrite Hmsgs. do 2 f_equal.
    assert (displayText m = text m) as Heq.
    { apply is_prefix_same_length; [done|]. apply is_prefix_length in Hpre. lia. }
    destruct m; cbn in *. by subst.
  - unfold ticks. cbn [replicate]. rewrite run_cons.
    assert (String.length (displayText m) < String.length (text m))%nat as Hlt by lia.
    rewrite (step_TimerFires_armed influencerName w l m Hmsgs Htext Hlt).
    rewrite (IH _ (reveal m)); [done | done | done | apply reveal_prefix |].
    rewrite reveal_length by done. cbn [text reveal with_displayText]. lia.
Qed.

Lemma substring_0_of_prefix (d t : string) :
  is_prefix d t → substring 0 (String.length d) t = d.
Proof.
  intros [rest ->]. induction d as [|c d IH]; [by destruct rest|].
  rewrite append_cons. cbn. by rewrite IH.
Qed.

Lemma with_displayText_same (m : ChatMessage) : with_displayText m (displayText m) = m.
Proof. by destruct m. Qed.

(** The state of the last message after [k] firings, as long as its text
    is not exhausted. *)
Lemma run_ticks_partial (k : nat) (w : World) (l : list ChatMessage) (m : ChatMessage) :
  messages (window w) = l ++ [m] →
  textual m →
  is_prefix (displayText m) (text m) →
  (k ≤ String.length (text m) - String.length (displayText m))%nat →
  messages (window (run (ticks k) w))
  = l ++ [with_displayText m
            (substring 0 (String.length (displayText m) + k) (text m))].
Proof.
  revert w m. induction k as [|k IH]; intros w m Hmsgs Htext Hpre Hk.
  - cbn. rewrite Hmsgs, Nat.add_0_r, substring_0_of_prefix by done.
    by rewrite with_displayText_same.
  - change (ticks (S k)) with (TimerFires :: ticks k). rewrite run_cons.
    assert (String.length (displayText m) < String.length (text m))%nat as Hlt by lia.
    rewrite (step_TimerFires_armed influencerName w l m Hmsgs Htext Hlt).
    rewrite (IH _ (reveal m)); [| done | done | apply reveal_prefix |].
    + rewrite reveal_length by done. cbn [text reveal with_displayText].
      replace (S (String.length (displayText m)) + k)%nat
        with (String.length (displayText m) + S k)%nat by lia.
      by destruct m.
    + rewrite reveal_length by done. cbn [text reveal with_displayText]. lia.
Qed.

(** C1 (as the code has it): in every reachable state every message shows a
    prefix of its text; a firing of the reveal timer keeps every message's
    text and never shortens what it shows; a textual assistant message
    that is the last of the list shows its whole text after
    [length text - length displayText] firings, and after [k] firings, for
    every [k] up to that number, it shows exactly the first
    [length displayText + k] code units of its text, so that it is complete
    after exactly that many firings and not before; and a message that is
    not the last one of the list is never revealed further: whatever
    events follow, it stays as it is. *)
Theorem reveal_prefix_monotone_complete (w : World) :
  reachable w →
  (∀ m, m ∈ messages (window w) → is_prefix (displayText m) (text m))
  ∧ (∀ i m, messages (window w) !! i = Some m →
       ∃ m', messages (window (step TimerFires w)) !! i = Some m'
             ∧ text m' = text m
             ∧ (String.length (displayText m) ≤ String.length (displayText m'))%nat)
  ∧ (∀ m, last (messages (window w)) = Some m → textual m →
       last (messages (window
               (run (ticks (String.length (text m) - String.length (displayText m))) w)))
       = Some (with_displayText m (text m)))
  ∧ (∀ m k, last (messages (window w)) = Some m → textual m →
       (k ≤ String.length (text m) - String.length (displayText m))%nat →
       last (messages (window (run (ticks k) w)))
       = Some (with_displayText m
                 (substring 0 (String.length (displayText m) + k) (text m)))
       ∧ String.length (substring 0 (String.length (displayText m) + k) (text m))
         = (String.length (displayText m) + k)%nat
       ∧ ((k < String.length (text m) - String.length (displayText m))%nat →
          substring 0 (String.length (displayText m) + k) (text m) ≠ text m))
  ∧ (∀ i evs, (S i < List.length (messages (window w)))%nat →
       messages (window (run evs w)) !! i = messages (window w) !! i).
Proof.
  intros Hreach. pose proof (reachable_Inv _ _ Hreach) as HInv.
  pose proof HInv as [(old & Hold & Hmsgs) _].
  assert (∀ m, m ∈ messages (window w) → is_prefix (displayText m) (text m)) as Hprefix.
  { intros m. rewrite Hmsgs. intros [Hm|Hm]%elem_of_app.
    - by apply (proj1 (Forall_forall _ _) Hold m Hm).
    - destruct (isProcessing (window w)); cbn in Hm.
      + apply list_elem_of_singleton in Hm as ->. apply is_prefix_empty.
      + by apply elem_of_nil in Hm. }
  assert (∀ l m, messages (window w) = l ++ [m] →
                 is_prefix (displayText m) (text m)) as Hlastprefix.
  { intros l m Hl. apply Hprefix. rewrite Hl. apply elem_of_app. right.
    by apply list_elem_of_singleton. }
  split; [done | split; [|split; [|split]]].
  - intros i m Hi.
    destruct (typingEffect (messages (window w))) as [lm|] eqn:Harmed.
    + apply typingEffect_Some in Harmed as ([l Hl] & Htext & Hlt).
      rewrite (step_TimerFires_armed _ _ _ _ Hl Htext Hlt). cbn [messages window].
      rewrite Hl in Hi. apply lookup_app_Some in Hi as [Hi|[Hge Hi]].
      * exists m. rewrite lookup_app_l by (by eapply lookup_lt_Some). done.
      * apply list_lookup_singleton_Some in Hi as [Hi0 <-].
        exists (reveal lm). rewrite lookup_app_r by done. rewrite Hi0.
        split; [done | split; [done|]]. rewrite reveal_length by done. lia.
    + rewrite step_TimerFires_idle by done. eauto.
  - intros m [l Hl]%last_Some Htext.
    rewrite (run_ticks_last _ w l m Hl Htext); [apply last_snoc | | done].
    by apply (Hlastprefix l).
  - intros m k [l Hl]%last_Some Htext Hk.
    pose proof (Hlastprefix l m Hl) as Hpre.
    rewrite (run_ticks_partial k w l m Hl Htext Hpre Hk).
    assert (String.length (substring 0 (String.length (displayText m) + k) (text m))
            = (String.length (displayText m) + k)%nat) as Hlen.
    { apply substring_0_length. apply is_prefix_length in Hpre. lia. }
    split; [apply last_snoc | split; [done|]].
    intros Hless Heq. rewrite Heq in Hlen. lia.
  - intros i evs Hi. by apply run_keeps_earlier.
Qed.

(** C2: in every reachable state the list holds as many loaders as there
    are requests in flight, which is at most one: one while [isProcessing]
    is set and none otherwise; and while it is set a further send changes
    nothing. *)
Theorem at_most_one_loader (w : World) :
  reachable w →
  loaders (messages (window w)) = List.length (inflight w)
  ∧ (loaders (messages (window w)) ≤ 1)%nat
  ∧ loaders (messages (window w)) = (if isProcessing (window w) then 1 else 0)%nat
  ∧ (isProcessing (window w) = true → ∀ now, step (Submit now) w = w).
Proof.
  intros Hreach. pose proof (reachable_Inv _ _ Hreach) as [(old & Hold & Hmsgs) Hfl].
  assert (loaders (messages (window w))
          = (if isProcessing (window w) then 1 else 0)%nat) as Hcount.
  { rewrite Hmsgs, loaders_app, loaders_settled by done.
    by destruct (isProcessing (window w)). }
  repeat split.
  - by rewrite Hcount, Hfl.
  - rewrite Hcount. destruct (isProcessing (window w)); lia.
  - done.
  - intros Hproc now. apply step_Submit_rejected. intros [_ Hfree]. congruence.
Qed.

(** C3: when a pending request settles, [isProcessing] is false afterwards
    whatever the outcome; and when it fails (rejected [fetch], status that
    is not ok, or a body that is not JSON) the loader at the end of the list
    is replaced by the one error message, whose text is the fixed sentence
    and whose displayed text is that whole sentence, so that no loader is
    left and the typing effect arms no timer. *)
Theorem failure_replaces_loader (w : World) (r : FetchResult) (now : Z) :
  reachable w → inflight w ≠ [] →
  isProcessing (window (step (FetchSettles r now) w)) = false
  ∧ (failed r →
     ∃ old, messages (window w) = old ++ [loadingMessage]
            ∧ messages (window (step (FetchSettles r now) w)) = old ++ [errorMessage now]
            ∧ loaders (messages (window (step (FetchSettles r now) w))) = 0%nat
            ∧ text (errorMessage now)
              = "Failed to generate response. Please try again."%string
            ∧ displayText (errorMessage now) = text (errorMessage now)
            ∧ typingEffect (messages (window (step (FetchSettles r now) w))) = None).
Proof.
  intros Hreach Hpending.
  pose proof (reachable_Inv _ _ Hreach) as HInv.
  pose proof HInv as [(old & Hold & Hmsgs) Hfl].
  destruct (isProcessing (window w)) eqn:Hproc;
    [|by destruct (inflight w)].
  cbn in Hmsgs.
  rewrite (step_FetchSettles_pending influencerName r now w old) by done.
  cbn [window isProcessing messages]. split; [done|].
  intros Hfail. exists old.
  assert (match r with
          | Resolved true (Data response) => aiMessage influencerName response now
          | _ => errorMessage now
          end = errorMessage now) as -> by (by destruct r as [|[] []]).
  repeat split; [done | |].
  - rewrite loaders_app, loaders_settled by done. done.
  - unfold typingEffect. by rewrite last_snoc.
Qed.

(** C4: when the input is not blank and no request is pending, the
    synchronous part of [sendMessage] appends the user message (shown in
    full) and then the loader, empties the input, sets [isProcessing] and
    leaves its request in flight. *)
Theorem sendMessage_appends_two (w : World) (now : Z) :
  JS.trim (input (window w)) ≠ ""%string →
  isProcessing (window w) = false →
  messages (window (step (Submit now) w))
  = messages (window w) ++ [userMessage (input (window w)) now; loadingMessage]
  ∧ sender (userMessage (input (window w)) now) = user
  ∧ text (userMessage (input (window w)) now) = input (window w)
  ∧ displayText (userMessage (input (window w)) now)
    = text (userMessage (input (window w)) now)
  ∧ isLoading loadingMessage = Some true
  ∧ input (window (step (Submit now) w)) = ""%string
  ∧ isProcessing (window (step (Submit now) w)) = true
  ∧ inflight (step (Submit now) w)
    = inflight w ++ [fetchRequest influencerName (input (window w))].
Proof.
  intros Htrim Hproc. by rewrite step_Submit_accepted.
Qed.

(** C5: a send while [isProcessing] is set, or with an input that is empty
    once trimmed, changes nothing: [sendMessage] returns the state it was
    given and no request, and the world (messages, input, flag, requests in
    flight) is the same. *)
Theorem send_rejected_noop (w : World) (now : Z) :
  isProcessing (window w) = true ∨ JS.trim (input (window w)) = ""%string →
  sendMessage influencerName (input (window w)) (isProcessing (window w)) now (window w)
  = (window w, Normal None)
  ∧ step (Submit now) w = w.
Proof.
  intros Hrej.
  assert (¬ accepted (window w)) as Hnot.
  { intros [Htrim Hfree]. destruct Hrej; congruence. }
  split; [by apply sendMessage_rejected | by apply step_Submit_rejected].
Qed.

(** C6 (as the code has it): an accepted send in a reachable state issues
    exactly one request, a POST to /api/ai/{influencerName} whose JSON body
    carries the input as it was typed, not trimmed. *)
Theorem sendMessage_request (w : World) (now : Z) :
  reachable w → accepted (window w) →
  inflight (step (Submit now) w)
  = [ {| url := "/api/ai/" +:+ influencerName;
         method := "POST";
         headers := [("Content-Type", "application/json")];
         body := JSON_stringify (JObject [("message", JString (input (window w)))]) |} ].
Proof.
  intros Hreach Hacc. rewrite step_Submit_accepted by done. cbn [inflight].
  pose proof (reachable_Inv _ _ Hreach) as [_ Hfl].
  destruct Hacc as [_ Hproc]. rewrite Hproc in Hfl.
  by destruct (inflight w).
Qed.

(** C10: a send accepted in a reachable state, followed by any events that
    settle nothing and then by the settling of its request, leaves the list
    it found with two messages after it, the user message and the answer
    or the error message; before it settles the list is the old one with
    the user message and the loader.  In any state the success path keeps
    the length of the list and every message whose timestamp is not empty,
    and the failure path keeps exactly the messages whose timestamp is not
    empty and appends the error message. *)
Theorem completed_send_adds_two
        (w : World) (now : Z) (between : list Event) (r : FetchResult) (now' : Z) :
  reachable w → accepted (window w) →
  Forall (λ e, settles e = false) between →
  messages (window (run between (step (Submit now) w)))
  = messages (window w) ++ [userMessage (input (window w)) now; loadingMessage]
  ∧ messages (window (step (FetchSettles r now') (run between (step (Submit now) w))))
    = messages (window w)
      ++ [userMessage (input (window w)) now;
          match r with
          | Resolved true (Data response) => aiMessage influencerName response now'
          | _ => errorMessage now'
          end]
  ∧ List.length (messages (window (step (FetchSettles r now')
                                        (run between (step (Submit now) w)))))
    = (List.length (messages (window w)) + 2)%nat
  ∧ (∀ c response,
       let c' := fst (sendMessage_resume influencerName
                        (Resolved true (Data response)) now' c) in
       List.length (messages c') = List.length (messages c)
       ∧ ∀ i m, messages c !! i = Some m → timestamp m ≠ ""%string →
                messages c' !! i = Some m)
  ∧ (∀ c r', failed r' →
       messages (fst (sendMessage_resume influencerName r' now' c))
       = List.filter (λ m, negb (String.eqb (timestamp m) "")) (messages c)
         ++ [errorMessage now']).
Proof.
  intros Hreach Hacc Hbetween.
  pose proof (reachable_Inv _ _ Hreach) as HInv.
  pose proof HInv as [(old & Hold & Hmsgs) Hfl].
  pose proof Hacc as [_ Hproc]. rewrite Hproc in Hmsgs. cbn in Hmsgs.
  rewrite app_nil_r in Hmsgs.
  set (w1 := step (Submit now) w).
  assert (messages (window w1)
          = (messages (window w) ++ [userMessage (input (window w)) now])
            ++ [loadingMessage]) as Hw1.
  { unfold w1. rewrite step_Submit_accepted by done. cbn. by rewrite <- app_assoc. }
  assert (isProcessing (window w1) = true) as Hp1.
  { unfold w1. by rewrite step_Submit_accepted. }
  destruct (pending_stable_run influencerName between w1 _ Hp1 Hw1 Hbetween)
    as (Hp2 & Hm2 & Hf2).
  assert (Inv (run between w1)) as HInv2.
  { apply Inv_run, step_Inv, HInv. }
  assert (messages (window (step (FetchSettles r now') (run between w1)))
          = messages (window w)
            ++ [userMessage (input (window w)) now;
                match r with
                | Resolved true (Data response) => aiMessage influencerName response now'
                | _ => errorMessage now'
                end]) as Hfinal.
  { rewrite (step_FetchSettles_pending influencerName r now' (run between w1)
               (messages (window w) ++ [userMessage (input (window w)) now])).
    - cbn. by rewrite <- app_assoc.
    - done.
    - apply Forall_app. split; [by rewrite Hmsgs|].
      apply Forall_singleton, settled_userMessage.
    - by rewrite Hm2, Hw1.
    - done. }
  split; [by rewrite Hm2, Hw1, <- app_assoc|].
  split; [done|]. split; [rewrite Hfinal, length_app; cbn; lia|]. split.
  - intros c response c'. unfold c'. rewrite sendMessage_resume_success.
    cbn [fst messages]. split; [apply length_map|].
    intros i m Hi Hts. apply lookup_map_keep; [done|].
    unfold isLoader. cbn [timestamp loadingMessage].
    by apply String.eqb_neq in Hts as ->.
  - intros c r' Hfail. by rewrite sendMessage_resume_failure.
Qed.

End ChatWidgetProperties.

(** ** The properties on the sample runs *)

(** The answer "hi" of [answered] is shown in full after two firings. *)
Lemma reveal_prefix_monotone_complete_witness :
  reachable "luna" (run "luna" answered start)
  ∧ last (messages (window (run "luna" (ticks 2) (run "luna" answered start))))
    = Some {| sender := ai; text := "hi"; timestamp := "2000"; displayText := "hi";
              isImage := Some false; isLoading := None |}.
Proof.
  assert (reachable "luna" (run "luna" answered start)) as Hreach.
  { exists answered. reflexivity. }
  split; [exact Hreach|].
  refine (proj1 (proj2 (proj2 (reveal_prefix_monotone_complete "luna" _ Hreach)))
            {| sender := ai; text := "hi"; timestamp := "2000"; displayText := "";
               isImage := Some false; isLoading := None |} _ _).
  - reflexivity.
  - repeat split.
Defined.

(** C1 (as the spec states it) fails: in the reachable state after
    [abandoned] the answer "hi" sits at index 1 showing only "h", and
    whatever happens afterwards, timer firings included, it still does. *)
Lemma reveal_abandoned :
  messages (window (run "luna" abandoned start)) !! 1%nat = Some stuck
  ∧ textual stuck
  ∧ displayText stuck ≠ text stuck
  ∧ ∀ evs, messages (window (run "luna" evs (run "luna" abandoned start))) !! 1%nat
           = Some stuck.
Proof.
  split; [reflexivity|]. split; [by repeat split|]. split; [discriminate|].
  intros evs. rewrite run_keeps_earlier; [reflexivity | | vm_compute; lia].
  apply reachable_Inv with (influencerName := "luna"%string).
  by exists abandoned.
Qed.

(** One loader while the question of [asked] is pending. *)
Lemma at_most_one_loader_witness :
  reachable "luna" (run "luna" asked start)
  ∧ loaders (messages (window (run "luna" asked start))) = 1%nat.
Proof.
  assert (reachable "luna" (run "luna" asked start)) as Hreach.
  { exists asked. reflexivity. }
  split; [exact Hreach|].
  exact (proj1 (proj2 (proj2 (at_most_one_loader "luna" _ Hreach)))).
Defined.

(** The request of [asked] answered with a status that is not ok. *)
Lemma failure_replaces_loader_witness :
  reachable "luna" (run "luna" asked start)
  ∧ inflight (run "luna" asked start) ≠ []
  ∧ isProcessing (window (step "luna" (FetchSettles (Resolved false NotJson) 2000)
                               (run "luna" asked start))) = false.
Proof.
  assert (reachable "luna" (run "luna" asked start)) as Hreach.
  { exists asked. reflexivity. }
  assert (inflight (run "luna" asked start) ≠ []) as Hpending by discriminate.
  split; [exact Hreach|]. split; [exact Hpending|].
  exact (proj1 (failure_replaces_loader "luna" _ (Resolved false NotJson) 2000
                 Hreach Hpending)).
Defined.

(** Sending "yo" from the initial state. *)
Lemma sendMessage_appends_two_witness :
  JS.trim (input (window (run "luna" [Change "yo"] start))) ≠ ""%string
  ∧ isProcessing (window (run "luna" [Change "yo"] start)) = false
  ∧ messages (window (step "luna" (Submit 1000) (run "luna" [Change "yo"] start)))
    = [userMessage "yo" 1000; loadingMessage].
Proof.
  assert (JS.trim (input (window (run "luna" [Change "yo"] start))) ≠ ""%string)
    as Htrim by discriminate.
  split; [exact Htrim|]. split; [reflexivity|].
  exact (proj1 (sendMessage_appends_two "luna" _ 1000 Htrim eq_refl)).
Defined.

(** A second send while the question of [asked] is pending. *)
Lemma send_rejected_noop_witness :
  isProcessing (window (run "luna" asked start)) = true
  ∧ step "luna" (Submit 1500) (run "luna" asked start) = run "luna" asked start.
Proof.
  split; [reflexivity|].
  exact (proj2 (send_rejected_noop "luna" (run "luna" asked start) 1500
                 (or_introl eq_refl))).
Defined.

(** Sending "yo" from the initial state issues one request. *)
Lemma sendMessage_request_witness :
  reachable "luna" (run "luna" [Change "yo"] start)
  ∧ accepted (window (run "luna" [Change "yo"] start))
  ∧ List.length (inflight (step "luna" (Submit 1000) (run "luna" [Change "yo"] start)))
    = 1%nat.
Proof.
  assert (reachable "luna" (run "luna" [Change "yo"] start)) as Hreach.
  { exists [Change "yo"]. reflexivity. }
  assert (accepted (window (run "luna" [Change "yo"] start))) as Hacc.
  { split; [discriminate | reflexivity]. }
  split; [exact Hreach|]. split; [exact Hacc|].
  exact (f_equal (@List.length Request) (sendMessage_request "luna" _ 1000 Hreach Hacc)).
Defined.

(** C6 (as the spec states it) fails: for the input " hi" the body of the
    one request carries " hi", which is not the trimmed input "hi". *)
Lemma payload_keeps_blanks :
  body <$> inflight (run "luna" padded start)
  = [JSON_stringify (JObject [("message", JString " hi")])]
  ∧ JS.trim " hi" = "hi"%string
  ∧ JSON_stringify (JObject [("message", JString " hi")])
    ≠ JSON_stringify (JObject [("message", JString (JS.trim " hi"))]).
Proof. split; [reflexivity|]. split; [reflexivity|]. vm_compute. discriminate. Qed.

(** "yo" is sent, the user types and tries to send again, the timer is
    tried, and then the request is rejected. *)
Lemma completed_send_adds_two_witness :
  reachable "luna" (run "luna" [Change "yo"] start)
  ∧ accepted (window (run "luna" [Change "yo"] start))
  ∧ Forall (λ e, settles e = false) [Change "again"; Submit 1200; TimerFires]
  ∧ messages (window (step "luna" (FetchSettles Rejected 2000)
                        (run "luna" [Change "again"; Submit 1200; TimerFires]
                           (step "luna" (Submit 1000)
                              (run "luna" [Change "yo"] start)))))
    = [userMessage "yo" 1000; errorMessage 2000].
Proof.
  assert (reachable "luna" (run "luna" [Change "yo"] start)) as Hreach.
  { exists [Change "yo"]. reflexivity. }
  assert (accepted (window (run "luna" [Change "yo"] start))) as Hacc.
  { split; [discriminate | reflexivity]. }
  assert (Forall (λ e, settles e = false) [Change "again"; Submit 1200; TimerFires])
    as Hbetween.
  { repeat constructor. }
  split; [exact Hreach|]. split; [exact Hacc|]. split; [exact Hbetween|].
  exact (proj1 (proj2 (completed_send_adds_two "luna" _ 1000 _ Rejected 2000
                         Hreach Hacc Hbetween))).
Defined.

(** ** [formatResponseText] *)

Lemma substring_length (q n : nat) (s : string) :
  (q + n ≤ String.length s)%nat → String.length (substring q n s) = n.
Proof.
  revert q n. induction s as [|c s IH]; intros q n Hle.
  - cbn in Hle. by destruct q, n; [|lia..].
  - destruct q as [|q], n as [|n]; cbn in *; [done | | apply IH; lia..].
    rewrite (IH 0%nat n); [done | lia].
Qed.

Lemma lazyStar_consuming (a : atom) (k : string → option string) :
  consuming k → consuming (λ s, lazyStar a s k).
Proof.
  intros Hk s. induction s as [|c s IH]; intros rest; cbn.
  - destruct (k ""%string) as [rest'|] eqn:Hks; [|done].
    intros [= <-]. by apply Hk in Hks.
  - destruct (k (String c s)) as [rest'|] eqn:Hks.
    + intros [= <-]. by apply Hk in Hks.
    + destruct (atomMatches a c); [|done].
      intros Hrest%IH. lia.
Qed.

Lemma matcher_consuming (r : regex) (k : string → option string) :
  consuming k → consuming (λ s, matcher r s k).
Proof.
  revert k. induction r as [a|a|r1 IH1 r2 IH2|r1 IH1 r2 IH2]; intros k Hk.
  - intros [|c s] rest; cbn; [done|].
    destruct (atomMatches a c); [|done]. intros Hrest%Hk. lia.
  - by apply lazyStar_consuming.
  - cbn. apply IH1. by apply IH2.
  - intros s rest. cbn.
    destruct (matcher r1 s k) as [rest'|] eqn:H1.
    + intros [= <-]. by apply (IH1 k Hk) in H1.
    + apply (IH2 k Hk).
Qed.

Lemma matchAt_bounds (r : regex) (S : string) (q e : nat) :
  (q ≤ String.length S)%nat → matchAt r S q = Some e →
  (q ≤ e ≤ String.length S)%nat.
Proof.
  intros Hq. unfold matchAt.
  destruct (matcher r _ Some) as [rest|] eqn:Hm; [|done].
  intros [= <-].
  apply (matcher_consuming r Some) in Hm; [|by intros ? ? [= ->]].
  rewrite substring_length in Hm by lia. lia.
Qed.

(** The loop ends before its fuel does. *)
Lemma splitLoop_total (r : regex) (S : string) (fuel p q : nat) :
  (q ≤ String.length S)%nat →
  (2 * (String.length S - q) + (if (p =? q)%nat then 0 else 1) < fuel)%nat →
  is_Some (splitLoop fuel r S p q).
Proof.
  revert p q. induction fuel as [|fuel IH]; intros p q Hq Hfuel; [lia|].
  cbn [splitLoop].
  destruct (Nat.ltb_spec q (String.length S)) as [Hlt|Hge]; [|done].
  assert (is_Some (splitLoop fuel r S p (q + 1))) as Hnext.
  { apply IH; [lia|]. destruct (Nat.eqb_spec p q), (Nat.eqb_spec p (q + 1)); lia. }
  destruct (matchAt r S q) as [e|] eqn:He; [|done].
  apply matchAt_bounds in He as [Hqe HeS]; [|done].
  destruct (Nat.eqb_spec e p) as [->|Hne]; [done|].
  destruct (IH e e) as [rest Hrest]; [done| |].
  - rewrite Nat.eqb_refl. destruct (Nat.eqb_spec p q); lia.
  - rewrite Hrest. by eexists.
Qed.

(** [split] always returns, and so does [formatResponseText]. *)
Lemma split_total (r : regex) (S : string) : is_Some (split r S).
Proof.
  unfold split. destruct (Nat.eqb_spec (String.length S) 0).
  - by destruct (matchAt r S 0).
  - apply splitLoop_total; cbn; lia.
Qed.

Lemma formatResponseText_total (text : string) : is_Some (formatResponseText text).
Proof.
  unfold formatResponseText. destruct (split_total pattern text) as [parts ->].
  by eexists.
Qed.

(** Well-formed spans are rendered with their emphasis and the text around
    them is passed through. *)
Example formatResponseText_spans :
  formatResponseText "a **b** c *d* e"
  = Some [span 0 "a "; strong 1 "b"; span 2 " c "; em 3 "d"; span 4 " e"].
Proof. reflexivity. Qed.

Lemma plain_substring (q n : nat) (s : string) :
  plain s = true → plain (substring q n s) = true.
Proof.
  revert q n. induction s as [|c s IH]; intros q n Hs.
  - by destruct q, n.
  - cbn in Hs. apply andb_true_iff in Hs as [Hc Hs].
    destruct q as [|q], n as [|n]; cbn; [done | | by apply IH..].
    rewrite Hc. by apply IH.
Qed.

Lemma pattern_needs_asterisk (s : string) (k : string → option string) :
  plain s = true → matcher pattern s k = None.
Proof.
  destruct s as [|c s]; [done|]. cbn.
  intros [Hc _]%andb_true_iff. apply negb_true_iff in Hc.
  unfold atomMatches. by rewrite Hc.
Qed.

Lemma matchAt_plain (S : string) (q : nat) :
  plain S = true → matchAt pattern S q = None.
Proof.
  intros HS. unfold matchAt.
  by rewrite pattern_needs_asterisk by (by apply plain_substring).
Qed.

Lemma splitLoop_plain (S : string) (fuel p q : nat) :
  plain S = true → (String.length S - q < fuel)%nat →
  splitLoop fuel pattern S p q = Some [substring p (String.length S - p) S].
Proof.
  intros HS. revert q. induction fuel as [|fuel IH]; intros q Hfuel; [lia|].
  cbn [splitLoop].
  destruct (Nat.ltb_spec q (String.length S)) as [Hlt|Hge]; [|done].
  rewrite matchAt_plain by done. apply IH. lia.
Qed.

Lemma substring_0_all (s : string) : substring 0 (String.length s) s = s.
Proof. induction s as [|c s IH]; cbn; [done | by rewrite IH]. Qed.

(** X18: a text without any asterisk is one piece and is rendered as one
    span that holds it unchanged. *)
Lemma formatResponseText_plain (text : string) :
  plain text = true → formatResponseText text = Some [span 0 text].
Proof.
  intros Hplain. unfold formatResponseText, split.
  assert (formatPart 0 text = span 0 text) as Hpart.
  { unfold formatPart, JS.startsWith.
    destruct text as [|c text]; [done|].
    cbn in Hplain. apply andb_true_iff in Hplain as [Hc _].
    apply negb_true_iff, Ascii.eqb_neq in Hc.
    assert (∀ p, String.prefix (String "*" p) (String c text) = false) as Hnot.
    { intros p. destruct (String.prefix _ _) eqn:Hp; [|done].
      apply String.prefix_correct in Hp. cbn in Hp. congruence. }
    by rewrite !Hnot. }
  destruct (Nat.eqb_spec (String.length text) 0) as [Hlen|Hlen].
  - rewrite matchAt_plain by done. cbn. by rewrite Hpart.
  - rewrite splitLoop_plain by (done || lia).
    rewrite Nat.sub_0_r, substring_0_all. cbn. by rewrite Hpart.
Qed.

(** C7 (where the code departs from it): a lone asterisk has no closer and
    is no match of the pattern, so [split] leaves it as the only piece; yet
    that piece starts and ends with an asterisk, and the formatter renders
    it as an emphasis element with empty content.  The asterisk is not
    rendered as text. *)
Theorem formatResponseText_lone_asterisk :
  split pattern "*" = Some ["*"%string]
  ∧ formatResponseText "*" = Some [em 0 ""]
  ∧ formatResponseText "*" ≠ Some [span 0 "*"].
Proof. split; [reflexivity|]. split; [reflexivity | discriminate]. Qed.

(** Further unterminated delimiters that are taken for markup: an opening
    pair of asterisks that is never closed, and two asterisks on two
    lines, where the piece is not even split. *)
Example formatResponseText_unclosed_bold :
  formatResponseText "**bold" = Some [span 0 ""; strong 1 ""; span 2 "bold"].
Proof. reflexivity. Qed.

Example formatResponseText_across_lines :
  formatResponseText (String "*" (String (ascii_of_nat 10) "*"))
  = Some [em 0 (String (ascii_of_nat 10) "")].
Proof. reflexivity. Qed.

(** ** [formatTimestamp] *)

(** The [catch] block is never entered: whatever the timestamp, the result
    is what [toLocaleTimeString] makes of the date built from it. *)
Lemma formatTimestamp_no_fallback (localeTime : Z → string) (now : Z) (timestamp : string) :
  formatTimestamp localeTime now timestamp
  = Normal (toLocaleTimeString localeTime (Date_of_number (Number timestamp))).
Proof. reflexivity. Qed.

Lemma formatTimestamp_invalid (localeTime : Z → string) (now : Z) (timestamp : string) :
  Date_of_number (Number timestamp) = None →
  formatTimestamp localeTime now timestamp = Normal "Invalid Date"%string.
Proof. intros Hinvalid. by rewrite formatTimestamp_no_fallback, Hinvalid. Qed.

(** The timestamps the widget itself produces are valid. *)
Example formatTimestamp_valid :
  formatTimestamp utcTime 1700000100000 "1700000000000" = Normal "22:13"%string.
Proof. vm_compute. reflexivity. Qed.


(** ** [Home] *)





(** ** Further properties of the chat widget *)

Section ChatWidgetFurther.

Variable influencerName : string.

Local Abbreviation step := (step influencerName).
Local Abbreviation run := (run influencerName).
Local Abbreviation reachable := (reachable influencerName).

Lemma step_never_shrinks (e : Event) (w : World) :
  Inv w →
  (List.length (messages (window w)) ≤ List.length (messages (window (step e w))))%nat.
Proof.
  intros HInv.
  destruct (step_changes_only_end influencerName e w HInv)
    as (l & x & y & Hw & Hw' & _ & Hxy).
  rewrite Hw, Hw', !length_app. lia.
Qed.

Lemma run_never_shrinks (evs : list Event) (w : World) :
  Inv w →
  (List.length (messages (window w)) ≤ List.length (messages (window (run evs w))))%nat.
Proof.
  revert w. induction evs as [|e evs IH]; intros w HInv; [done|].
  rewrite run_cons. etrans; [by apply step_never_shrinks|].
  by apply IH, step_Inv.
Qed.

(** X1: from a reachable state on, whatever events follow, the list never
    gets shorter and every message but the last one stays where and what it
    is. *)
Theorem earlier_messages_frozen (w : World) (evs : list Event) (i : nat) :
  reachable w →
  (S i < List.length (messages (window w)))%nat →
  messages (window (run evs w)) !! i = messages (window w) !! i
  ∧ (List.length (messages (window w))
     ≤ List.length (messages (window (run evs w))))%nat.
Proof.
  intros Hreach Hi. pose proof (reachable_Inv _ _ Hreach) as HInv.
  split; [by apply run_keeps_earlier | by apply run_never_shrinks].
Qed.

(** X2: a firing of the reveal timer leaves every message alone that is
    not a textual assistant message: the user's messages, the loader and
    the images are never grown.  This holds in any state. *)
Theorem tick_spares_others (w : World) (i : nat) (m : ChatMessage) :
  messages (window w) !! i = Some m →
  ¬ textual m →
  messages (window (step TimerFires w)) !! i = Some m.
Proof.
  intros Hi Hnot.
  destruct (typingEffect (messages (window w))) as [lm|] eqn:Harmed.
  - apply typingEffect_Some in Harmed as ([l Hl] & Htext & Hlt).
    rewrite (step_TimerFires_armed _ _ _ _ Hl Htext Hlt). cbn [messages window].
    rewrite Hl in Hi. apply lookup_app_Some in Hi as [Hi|[Hge Hi]].
    + rewrite lookup_app_l by (by eapply lookup_lt_Some). done.
    + apply list_lookup_singleton_Some in Hi as [_ <-]. done.
  - by rewrite step_TimerFires_idle.
Qed.

(** X3: when the timer is armed, that is when the last message is a textual
    assistant message showing less than its text, a firing gives it exactly
    the next code unit of its text and changes nothing else: not the other
    messages, not the input, not the flag, not the requests in flight. *)
Theorem tick_reveals_one (w : World) (l : list ChatMessage) (m : ChatMessage) :
  messages (window w) = l ++ [m] →
  textual m →
  (String.length (displayText m) < String.length (text m))%nat →
  step TimerFires w
  = {| window :=
         {| messages :=
              l ++ [with_displayText m
                      (substring 0 (S (String.length (displayText m))) (text m))];
            input := input (window w);
            isProcessing := isProcessing (window w) |};
       inflight := inflight w |}
  ∧ String.length (substring 0 (S (String.length (displayText m))) (text m))
    = S (String.length (displayText m)).
Proof.
  intros Hl Htext Hlt.
  rewrite (step_TimerFires_armed _ _ _ _ Hl Htext Hlt).
  unfold reveal, JS.length. rewrite slice_next, Nat.min_l by lia.
  split; [done | apply substring_0_length; lia].
Qed.

Lemma step_TimerFires_rest (w : World) :
  input (window (step TimerFires w)) = input (window w)
  ∧ isProcessing (window (step TimerFires w)) = isProcessing (window w)
  ∧ inflight (step TimerFires w) = inflight w.
Proof.
  step_unfold. by destruct (typingEffect (messages (window w))).
Qed.

Lemma run_ticks_rest (n : nat) (w : World) :
  input (window (run (ticks n) w)) = input (window w)
  ∧ isProcessing (window (run (ticks n) w)) = isProcessing (window w)
  ∧ inflight (run (ticks n) w) = inflight w.
Proof.
  revert w. induction n as [|n IH]; intros w; [done|].
  change (ticks (S n)) with (TimerFires :: ticks n). rewrite run_cons.
  destruct (IH (step TimerFires w)) as (-> & -> & ->).
  apply step_TimerFires_rest.
Qed.

(** X4: neither a firing of the timer nor the settling of a request touches
    the input field: what the user has typed meanwhile is kept. *)
Theorem draft_kept (w : World) (e : Event) :
  e = TimerFires ∨ settles e = true →
  input (window (step e w)) = input (window w).
Proof.
  intros [->|Hsettles].
  - apply step_TimerFires_rest.
  - destruct e as [| | |r now]; try done. step_unfold.
    destruct (inflight w); [done|]. cbn [window].
    by destruct r as [|[] []].
Qed.

Lemma window_eq (c : ChatWindow) (l : list ChatMessage) (s : string) (b : bool) :
  messages c = l → input c = s → isProcessing c = b →
  c = {| messages := l; input := s; isProcessing := b |}.
Proof. destruct c; cbn; by intros -> -> ->. Qed.

(** X5: for a persona other than artifex, a send accepted in a reachable
    state, a successful reply and as many firings of the timer as the reply
    has code units lead to the old list followed by the user message and the
    reply shown in full, with an empty input and the flag cleared. *)
Theorem question_answered (w : World) (now now' : Z) (response : string) :
  reachable w → accepted (window w) →
  influencerName ≠ "artifex"%string →
  window (run ([Submit now; FetchSettles (Resolved true (Data response)) now']
               ++ ticks (String.length response)) w)
  = {| messages := messages (window w)
                   ++ [userMessage (input (window w)) now;
                       revealedAnswer response now'];
       input := ""; isProcessing := false |}.
Proof.
  intros Hreach Hacc Hpersona.
  pose proof (reachable_Inv _ _ Hreach) as HInv.
  pose proof HInv as [(old & Hold & Hmsgs) _].
  pose proof Hacc as [_ Hproc]. rewrite Hproc in Hmsgs. cbn in Hmsgs.
  rewrite app_nil_r in Hmsgs.
  rewrite run_app, !run_cons, run_nil.
  set (w1 := step (Submit now) w).
  assert (w1 = {| window :=
                    {| messages := (messages (window w)
                                    ++ [userMessage (input (window w)) now])
                                   ++ [loadingMessage];
                       input := ""; isProcessing := true |};
                  inflight := inflight w
                              ++ [fetchRequest influencerName (input (window w))] |})
    as Hw1.
  { unfold w1. rewrite step_Submit_accepted by done. by rewrite <- app_assoc. }
  assert (Inv w1) as HInv1 by (by apply step_Inv).
  set (w2 := step (FetchSettles (Resolved true (Data response)) now') w1).
  assert (w2 = {| window :=
                    {| messages := (messages (window w)
                                    ++ [userMessage (input (window w)) now])
                                   ++ [aiMessage influencerName response now'];
                       input := ""; isProcessing := false |};
                  inflight := [] |}) as Hw2.
  { unfold w2.
    rewrite (step_FetchSettles_pending influencerName _ now' w1
               (messages (window w) ++ [userMessage (input (window w)) now])).
    - by rewrite Hw1.
    - done.
    - apply Forall_app. split; [by rewrite Hmsgs|].
      apply Forall_singleton, settled_userMessage.
    - by rewrite Hw1.
    - by rewrite Hw1. }
  assert (aiMessage influencerName response now'
          = {| sender := ai; text := response; displayText := "";
               timestamp := JS.numberToString now';
               isImage := Some false; isLoading := None |}) as Hai.
  { unfold aiMessage. by apply String.eqb_neq in Hpersona as ->. }
  destruct (run_ticks_rest (String.length response) w2) as (Hin & Hpr & _).
  apply window_eq.
  - rewrite (run_ticks_last influencerName (String.length response) w2
               (messages (window w) ++ [userMessage (input (window w)) now])
               (aiMessage influencerName response now')).
    + rewrite Hai. by rewrite <- app_assoc.
    + by rewrite Hw2.
    + rewrite Hai. by repeat split.
    + rewrite Hai. apply is_prefix_empty.
    + rewrite Hai. cbn. lia.
  - by rewrite Hin, Hw2.
  - by rewrite Hpr, Hw2.
Qed.

(** X6: for the persona artifex the reply is an image: after the same send
    and reply the list ends with the user message and the image message,
    and no number of firings of the timer changes the state. *)
Theorem image_answer_never_revealed (w : World) (now now' : Z) (response : string)
        (n : nat) :
  reachable w → accepted (window w) →
  influencerName = "artifex"%string →
  window (run ([Submit now; FetchSettles (Resolved true (Data response)) now']
               ++ ticks n) w)
  = {| messages := messages (window w)
                   ++ [userMessage (input (window w)) now;
                       imageAnswer response now'];
       input := ""; isProcessing := false |}.
Proof.
  intros Hreach Hacc Hpersona.
  pose proof (reachable_Inv _ _ Hreach) as HInv.
  pose proof HInv as [(old & Hold & Hmsgs) _].
  pose proof Hacc as [_ Hproc]. rewrite Hproc in Hmsgs. cbn in Hmsgs.
  rewrite app_nil_r in Hmsgs.
  rewrite run_app, !run_cons, run_nil.
  set (w1 := step (Submit now) w).
  assert (w1 = {| window :=
                    {| messages := (messages (window w)
                                    ++ [userMessage (input (window w)) now])
                                   ++ [loadingMessage];
                       input := ""; isProcessing := true |};
                  inflight := inflight w
                              ++ [fetchRequest influencerName (input (window w))] |})
    as Hw1.
  { unfold w1. rewrite step_Submit_accepted by done. by rewrite <- app_assoc. }
  assert (Inv w1) as HInv1 by (by apply step_Inv).
  set (w2 := step (FetchSettles (Resolved true (Data response)) now') w1).
  assert (aiMessage influencerName response now' = imageAnswer response now') as Hai.
  { unfold aiMessage, imageAnswer. by rewrite Hpersona. }
  assert (w2 = {| window :=
                    {| messages := messages (window w)
                                   ++ [userMessage (input (window w)) now;
                                       imageAnswer response now'];
                       input := ""; isProcessing := false |};
                  inflight := [] |}) as Hw2.
  { unfold w2.
    rewrite (step_FetchSettles_pending influencerName _ now' w1
               (messages (window w) ++ [userMessage (input (window w)) now])).
    - rewrite Hw1, Hai. cbn. by rewrite <- app_assoc.
    - done.
    - apply Forall_app. split; [by rewrite Hmsgs|].
      apply Forall_singleton, settled_userMessage.
    - by rewrite Hw1.
    - by rewrite Hw1. }
  assert (∀ k, run (ticks k) w2 = w2) as Hidle.
  { induction k as [|k IH]; [done|].
    change (ticks (S k)) with (TimerFires :: ticks k). rewrite run_cons.
    rewrite step_TimerFires_idle; [exact IH|].
    rewrite Hw2. cbn [window messages].
    unfold typingEffect.
    replace (messages (window w)
             ++ [userMessage (input (window w)) now; imageAnswer response now'])
      with ((messages (window w) ++ [userMessage (input (window w)) now])
            ++ [imageAnswer response now']) by (by rewrite <- app_assoc).
    by rewrite last_snoc. }
  by rewrite Hidle, Hw2.
Qed.

End ChatWidgetFurther.

(** ** Questions and answers alternate *)

Lemma alternating_nil : alternating [].
Proof. split; [done | by intros i m]. Qed.

Lemma alternating_app_pair (l : list ChatMessage) (q a : ChatMessage) :
  alternating l → sender q = user → sender a = ai → alternating (l ++ [q; a]).
Proof.
  intros [Hlen Hl] Hq Ha. split.
  - rewrite length_app. cbn [List.length].
    replace (List.length l + 2)%nat with (S (S (List.length l))) by lia. done.
  - intros i m [Hi|[Hge Hi]]%lookup_app_Some; [by apply Hl|].
    replace i with (List.length l + (i - List.length l))%nat by lia.
    rewrite Nat.even_add, Hlen.
    destruct (i - List.length l)%nat as [|[|k]]; cbn in Hi; simplify_eq; done.
Qed.

Lemma alternating_replace_last (l : list ChatMessage) (m m' : ChatMessage) :
  alternating (l ++ [m]) → sender m' = sender m → alternating (l ++ [m']).
Proof.
  intros [Hlen Hl] Hsender. split.
  - by rewrite length_app in *.
  - intros i x [Hi|[Hge Hi]]%lookup_app_Some.
    + apply Hl. by rewrite lookup_app_l by (by eapply lookup_lt_Some).
    + apply list_lookup_singleton_Some in Hi as [Hi0 <-]. rewrite Hsender.
      apply Hl. rewrite lookup_app_r by done. by rewrite Hi0.
Qed.

Section ChatWidgetStructure.

Variable influencerName : string.

Local Abbreviation step := (step influencerName).
Local Abbreviation run := (run influencerName).
Local Abbreviation reachable := (reachable influencerName).

(** X7: in every reachable state the list is made of pairs, a message of
    the user followed by one of the assistant (loader, answer, image or
    error message): its length is even, the even positions hold the user's
    messages and the odd positions the assistant's. *)
Theorem questions_and_answers_alternate (w : World) :
  reachable w → alternating (messages (window w)).
Proof.
  revert w. apply reachable_ind; [apply alternating_nil|].
  intros e w Hreach Halt.
  pose proof (reachable_Inv _ _ Hreach) as HInv.
  pose proof HInv as [(old & Hold & Hmsgs) Hfl].
  destruct e as [value|now| |r now].
  - by rewrite step_Change.
  - destruct (accepted_dec (window w)) as [Hacc|Hrej].
    + rewrite step_Submit_accepted by done. cbn [window messages].
      by apply alternating_app_pair.
    + by rewrite step_Submit_rejected.
  - destruct (typingEffect (messages (window w))) as [m|] eqn:Harmed.
    + apply typingEffect_Some in Harmed as ([l Hl] & Htext & Hlt).
      rewrite (step_TimerFires_armed _ _ _ _ Hl Htext Hlt). cbn [window messages].
      rewrite Hl in Halt. by apply (alternating_replace_last l m).
    + by rewrite step_TimerFires_idle.
  - destruct (isProcessing (window w)) eqn:Hproc; cbn in Hmsgs.
    + rewrite (step_FetchSettles_pending influencerName r now w old) by done.
      cbn [window messages]. rewrite Hmsgs in Halt.
      apply (alternating_replace_last old loadingMessage); [done|].
      by destruct r as [|[] []].
    + rewrite step_FetchSettles_none; [done|]. by destruct (inflight w).
Qed.

(** X8: the send button is disabled exactly when a click would do nothing:
    if it is disabled a send leaves the world as it is, and if it is enabled
    a send adds two messages and one request. *)
Theorem button_matches_guard (w : World) (now : Z) :
  (buttonDisabled (window w) = true → step (Submit now) w = w)
  ∧ (buttonDisabled (window w) = false →
     List.length (messages (window (step (Submit now) w)))
     = (List.length (messages (window w)) + 2)%nat
     ∧ List.length (inflight (step (Submit now) w))
       = (List.length (inflight w) + 1)%nat).
Proof.
  unfold buttonDisabled. split; intros Hbutton.
  - apply step_Submit_rejected. intros [Htrim Hproc]. rewrite Hproc in Hbutton.
    by destruct (JS.trim (input (window w))).
  - apply orb_false_iff in Hbutton as [Htrim Hproc].
    rewrite step_Submit_accepted.
    + cbn [window messages inflight]. by rewrite !length_app.
    + split; [|done]. by destruct (JS.trim (input (window w))).
Qed.

End ChatWidgetStructure.

(** ** Blank inputs *)

Lemma trimStart_blank (s : string) : blank (JS.trimStart s) = blank s.
Proof.
  induction s as [|c s IH]; [done|]. cbn.
  destruct (JS.isWhiteSpace c) eqn:Hc; cbn; [done | by rewrite Hc].
Qed.

Lemma trimEnd_empty (s : string) : JS.trimEnd s = ""%string ↔ blank s = true.
Proof.
  induction s as [|c s IH]; [done|]. cbn.
  destruct (JS.trimEnd s) as [|c' t].
  - destruct (JS.isWhiteSpace c); cbn; [|done].
    split; intros _; [by apply IH | done].
  - split; [done|]. intros [_ Hs%IH]%andb_true_iff. done.
Qed.

Lemma trim_empty (s : string) : JS.trim s = ""%string ↔ blank s = true.
Proof. unfold JS.trim. by rewrite trimEnd_empty, trimStart_blank. Qed.

(** X9: for an input whose code units all lie below 256, as the strings
    modelled here do: while no request is pending, a send does nothing
    exactly when the input consists only of TAB, LF, VT, FF, CR, space and
    no-break space (the empty input included). *)
Theorem blank_input_never_sent (influencerName : string) (w : World) (now : Z) :
  isProcessing (window w) = false →
  (blank (input (window w)) = true ↔ step influencerName (Submit now) w = w).
Proof.
  intros Hproc. rewrite <- trim_empty. split.
  - intros Htrim. apply step_Submit_rejected. by intros [? _].
  - intros Hsame. destruct (decide (JS.trim (input (window w)) = ""%string))
      as [|Hfull]; [done|].
    rewrite step_Submit_accepted in Hsame by done.
    apply (f_equal (λ w, List.length (messages (window w)))) in Hsame.
    cbn in Hsame. rewrite length_app in Hsame. cbn in Hsame. lia.
Qed.

(** ** The cursor *)

(** X10: the blinking cursor is drawn after the last message exactly when
    the typing effect has a timer armed for it. *)
Theorem cursor_iff_armed (l : list ChatMessage) (m : ChatMessage) :
  last l = Some m →
  (typingEffect l = Some m ↔ ∃ content, bubble m = Prose content true).
Proof.
  intros Hlast. unfold typingEffect, bubble. rewrite Hlast.
  destruct (JS.truthy_opt (isLoading m)); cbn [negb andb].
  { rewrite andb_false_r. cbn. split; [done | by intros [? ?]]. }
  destruct (JS.truthy_opt (isImage m)); cbn [negb andb].
  { rewrite andb_false_r. cbn. split; [done | by intros [? ?]]. }
  rewrite !andb_true_r.
  destruct (bool_decide (sender m = ai)
            && (JS.length (displayText m) <? JS.length (text m))%nat).
  - split; [by eexists | done].
  - split; [done | by intros [? [=]]].
Qed.

(** ** The request body *)

Lemma append_assoc (s t u : string) : (s +:+ t) +:+ u = s +:+ (t +:+ u).
Proof. induction s as [|c s IH]; [done|]. by rewrite !append_cons, IH. Qed.

Lemma readUnits_quoteUnit (c : ascii) (rest : string) :
  readUnits (quoteUnit c +:+ rest) = String c (readUnits rest).
Proof.
  destruct c as [[] [] [] [] [] [] [] []]; reflexivity.
Qed.

Lemma readUnits_quoteUnits (s tail : string) :
  readUnits (quoteUnits s +:+ String dquote tail) = s.
Proof.
  induction s as [|c s IH]; [done|].
  cbn [quoteUnits]. by rewrite append_assoc, readUnits_quoteUnit, IH.
Qed.

Lemma QuoteJSONString_inj (a b tail : string) :
  QuoteJSONString a +:+ tail = QuoteJSONString b +:+ tail → a = b.
Proof.
  unfold QuoteJSONString. rewrite !append_cons, !append_assoc, !append_cons.
  intros [= Heq]. apply (f_equal readUnits) in Heq.
  by rewrite !readUnits_quoteUnits in Heq.
Qed.

(** X11: the body of the request determines the input: two inputs that
    differ, be it by a blank, a quote, a backslash or a control character,
    never give the same body. *)
Theorem body_determines_input (influencerName a b : string) :
  a ≠ b →
  body (fetchRequest influencerName a) ≠ body (fetchRequest influencerName b).
Proof.
  intros Hne Heq. apply Hne. revert Heq.
  unfold fetchRequest. cbn [body JSON_stringify List.map String.concat fst snd].
  rewrite !append_assoc.
  intros Heq. do 3 apply (inj (String.app _)) in Heq.
  by apply QuoteJSONString_inj in Heq.
Qed.

(** ** Reading back a timestamp *)

Ltac digit_cases d :=
  destruct d as [|[|[|[|[|[|[|[|[|[|d]]]]]]]]]]; [| | | | | | | | | |exfalso; lia].

Lemma string_of_uint_digits (d : Decimal.uint) :
  NilEmpty.string_of_uint d = digitString (udigits d).
Proof. induction d as [|d IH|d IH|d IH|d IH|d IH|d IH|d IH|d IH|d IH|d IH];
         cbn; [done | by rewrite IH..]. Qed.

Lemma udigits_small (d : Decimal.uint) : Forall (λ x, x < 10)%nat (udigits d).
Proof. induction d; cbn; constructor; (lia || done). Qed.

Lemma of_uint_acc_value (d : Decimal.uint) (acc : positive) :
  Z.pos (Pos.of_uint_acc d acc)
  = foldl (λ a x, a * 10 + Z.of_nat x) (Z.pos acc) (udigits d).
Proof.
  revert acc. induction d as [|d IH|d IH|d IH|d IH|d IH|d IH|d IH|d IH|d IH|d IH];
    intros acc; cbn [Pos.of_uint_acc udigits foldl]; [done|..];
    rewrite IH; f_equal; lia.
Qed.

Lemma of_uint_value (d : Decimal.uint) : Z.of_uint d = valueOf 10 (udigits d).
Proof.
  unfold Z.of_uint, valueOf.
  induction d as [|d IH|d IH|d IH|d IH|d IH|d IH|d IH|d IH|d IH|d IH];
    cbn [Pos.of_uint udigits foldl]; [done | exact IH |..];
    cbn [Z.of_N]; by rewrite of_uint_acc_value.
Qed.

(** What [numberToString] prints: an optional minus sign and a non-empty
    list of decimal digits whose value is the magnitude. *)
Lemma numberToString_shape (n : Z) :
  ∃ ds, ds ≠ [] ∧ Forall (λ x, x < 10)%nat ds ∧ valueOf 10 ds = Z.abs n
        ∧ JS.numberToString n
          = if n <? 0 then String "-" (digitString ds) else digitString ds.
Proof.
  pose proof (DecimalZ.of_to n) as Hround. unfold JS.numberToString.
  destruct n as [|p|p]; cbn [Z.to_int] in *.
  - exists [0%nat]. repeat split; [done | by repeat constructor].
  - cbn [Z.of_int] in Hround. exists (udigits (Pos.to_uint p)).
    rewrite <- of_uint_value, Hround.
    assert (udigits (Pos.to_uint p) ≠ []) as Hne.
    { intros Hnil. rewrite of_uint_value, Hnil in Hround. done. }
    repeat split; [done | apply udigits_small |].
    cbn [NilZero.string_of_int Z.ltb Z.compare].
    destruct (Pos.to_uint p) eqn:Hu; [done|..];
      by rewrite <- string_of_uint_digits.
  - cbn [Z.of_int] in Hround. exists (udigits (Pos.to_uint p)).
    rewrite <- of_uint_value.
    assert (Z.of_uint (Pos.to_uint p) = Z.pos p) as Hval by lia.
    assert (udigits (Pos.to_uint p) ≠ []) as Hne.
    { intros Hnil. rewrite of_uint_value, Hnil in Hval. done. }
    repeat split; [done | apply udigits_small | by rewrite Hval |].
    cbn [NilZero.string_of_int Z.ltb Z.compare]. f_equal.
    destruct (Pos.to_uint p) eqn:Hu; [done|..];
      by rewrite <- string_of_uint_digits.
Qed.

Lemma digitValue_digit (d : nat) :
  (d < 10)%nat → digitValue 10 (ascii_of_nat (48 + d)) = Some d.
Proof. intros Hd. digit_cases d; reflexivity. Qed.

Lemma digit_not_white (d : nat) :
  (d < 10)%nat → JS.isWhiteSpace (ascii_of_nat (48 + d)) = false.
Proof. intros Hd. digit_cases d; reflexivity. Qed.

Lemma digits_digitString (ds : list nat) :
  Forall (λ x, x < 10)%nat ds → digits 10 (digitString ds) = (ds, ""%string).
Proof.
  induction 1 as [|d ds Hd _ IH]; [done|].
  cbn [digitString digits]. by rewrite digitValue_digit, IH.
Qed.

Lemma solid_digitString (ds : list nat) :
  Forall (λ x, x < 10)%nat ds → solid (digitString ds) = true.
Proof.
  induction 1 as [|d ds Hd _ IH]; [done|].
  cbn [digitString solid]. by rewrite digit_not_white, IH.
Qed.

Lemma trimEnd_solid (s : string) : solid s = true → JS.trimEnd s = s.
Proof.
  induction s as [|c s IH]; [done|]. cbn [solid JS.trimEnd].
  intros [Hc Hs]%andb_true_iff. rewrite IH by done.
  apply negb_true_iff in Hc. rewrite Hc. by destruct s.
Qed.

Lemma trim_solid (s : string) : solid s = true → JS.trim s = s.
Proof.
  intros Hs. unfold JS.trim.
  assert (JS.trimStart s = s) as ->; [|by apply trimEnd_solid].
  destruct s as [|c s]; [done|]. cbn in *.
  apply andb_true_iff in Hs as [Hc _]. apply negb_true_iff in Hc. by rewrite Hc.
Qed.

Lemma digits_base0 (s : string) : fst (digits 0 s) = [].
Proof.
  destruct s as [|c s]; [done|]. cbn [digits].
  assert (digitValue 0 c = None) as ->; [|done].
  unfold digitValue. by repeat case_match.
Qed.

Lemma parseNonDecimal_digitString (ds : list nat) :
  Forall (λ x, x < 10)%nat ds → parseNonDecimal (digitString ds) = None.
Proof.
  intros Hds. destruct Hds as [|d ds Hd Hds]; [done|].
  destruct Hds as [|d2 ds Hd2 Hds].
  { cbn [digitString]. digit_cases d; reflexivity. }
  cbn [digitString].
  assert (∀ s, match digits 0 s with
               | (x :: xs, EmptyString) => Some (valueOf (Z.of_nat 0) (x :: xs))
               | _ => None
               end = None) as Hbase0.
  { intros s. pose proof (digits_base0 s) as Hfst.
    destruct (digits 0 s) as [[|x xs] rest]; [done | discriminate]. }
  destruct d as [|d]; [|digit_cases d; reflexivity].
  digit_cases d2; apply Hbase0.
Qed.

Lemma parseSign_digitString (ds : list nat) :
  Forall (λ x, x < 10)%nat ds →
  parseSign (digitString ds) = (false, digitString ds).
Proof. intros [|d ds' Hd _]; [done|]. cbn [digitString]. digit_cases d; reflexivity. Qed.

Lemma digitString_not_Infinity (ds : list nat) :
  Forall (λ x, x < 10)%nat ds → String.eqb (digitString ds) "Infinity" = false.
Proof. intros [|d ds' Hd _]; [done|]. cbn [digitString]. digit_cases d; reflexivity. Qed.

Lemma parseDecimal_digitString (ds : list nat) :
  ds ≠ [] → Forall (λ x, x < 10)%nat ds →
  parseDecimal (digitString ds) = Some (valueOf 10 ds, 0).
Proof.
  intros Hne Hds. unfold parseDecimal. rewrite digits_digitString by done.
  rewrite app_nil_r. by destruct ds.
Qed.

(** [Number] reads back what [numberToString] printed, up to the rounding
    to a double. *)
Lemma Number_numberToString (n : Z) :
  Number (JS.numberToString n) = roundToDouble (n <? 0) (Z.abs n * 10 ^ 0) 1.
Proof.
  destruct (numberToString_shape n) as (ds & Hne & Hds & Hval & ->).
  unfold Number. destruct (n <? 0).
  - rewrite trim_solid
      by (cbn [solid]; by rewrite solid_digitString).
    cbn [parseNonDecimal parseSign].
    rewrite digitString_not_Infinity, parseDecimal_digitString by done.
    by rewrite Hval.
  - rewrite trim_solid by (by apply solid_digitString).
    rewrite parseNonDecimal_digitString, parseSign_digitString by done.
    rewrite digitString_not_Infinity, parseDecimal_digitString by done.
    rewrite Hval. by destruct ds.
Qed.

Lemma divRoundEven_1 (n : Z) : divRoundEven n 1 = n.
Proof. unfold divRoundEven. by rewrite Z.div_1_r, Z.mod_1_r. Qed.

Lemma maxTime_lt_pow2_53 : maxTime < 2 ^ 53.
Proof. reflexivity. Qed.

(** An integer of at most 53 bits is a double, and within the range of
    time values it is the time value of the date built from it. *)
Lemma TimeClip_roundToDouble (negative : bool) (m : Z) :
  0 ≤ m ≤ maxTime →
  TimeClip (roundToDouble negative m 1) = Some (if negative then - m else m).
Proof.
  intros [Hm0 Hmax]. pose proof maxTime_lt_pow2_53 as H53.
  unfold maxTime in Hmax, H53. unfold roundToDouble.
  destruct (Z.eqb_spec m 0) as [->|Hne]; [by destruct negative|].
  assert (0 < m) as Hpos by lia.
  change (Z.log2 1) with 0. rewrite Z.sub_0_r.
  pose proof (Z.log2_nonneg m) as HL0.
  assert (Z.log2 m < 53) as HL53.
  { apply Z.log2_lt_pow2; [done|]. lia. }
  destruct (Z.log2_spec m Hpos) as [Hlow _].
  rewrite (proj2 (Z.leb_le 0 (Z.log2 m))) by done.
  rewrite Z.mul_1_l, (proj2 (Z.leb_le _ _) Hlow).
  rewrite Z.max_l by lia.
  set (x := if negative then - m else m).
  assert (Z.abs x = m) as Habs by (unfold x; destruct negative; lia).
  destruct (Z.leb_spec 0 (Z.log2 m - 52)) as [He|He].
  - assert (Z.log2 m - 52 = 0) as -> by lia.
    change (2 ^ 0) with 1. rewrite !Z.mul_1_r, divRoundEven_1.
    assert ((2 ^ 1024 <=? m) = false) as ->.
    { apply Z.leb_gt.
      assert (2 ^ 53 ≤ 2 ^ 1024) by (by apply Z.pow_le_mono_r). lia. }
    cbn [andb]. unfold scale2. cbn [Z.leb Z.compare].
    change (2 ^ 0) with 1. rewrite Z.mul_1_r. fold x.
    unfold TimeClip, Qle_bool, Qabs, inject_Z. cbn [Qnum Qden].
    rewrite Habs, !Z.mul_1_r, (proj2 (Z.leb_le _ _) Hmax).
    by rewrite Z.quot_1_r.
  - cbn [andb]. rewrite divRoundEven_1.
    set (k := - (Z.log2 m - 52)). assert (0 < k ≤ 52) as Hk by (unfold k; lia).
    assert (0 < 2 ^ k) as Hpow by (apply Z.pow_pos_nonneg; lia).
    unfold scale2. rewrite (proj2 (Z.leb_gt _ _) He).
    assert ((if negative then - (m * 2 ^ k) else m * 2 ^ k) = x * 2 ^ k) as ->.
    { unfold x. destruct negative; lia. }
    unfold TimeClip, Qle_bool, Qabs, inject_Z. cbn [Qnum Qden].
    rewrite Z2Pos.id by done. fold k.
    rewrite Z.abs_mul, Habs, (Z.abs_eq (2 ^ k)) by lia.
    rewrite Z.mul_1_r.
    assert ((m * 2 ^ k <=? 8640000000000000 * 2 ^ k) = true) as ->.
    { apply Z.leb_le. apply Z.mul_le_mono_nonneg_r; lia. }
    by rewrite Z.quot_mul by lia.
Qed.

(** X12: reading back a timestamp.  For every instant [tv] a Date can hold,
    [Number] turns the string [tv.toString()] into the time value [tv]
    again and [formatTimestamp] returns the host's rendering of that very
    instant: the time lines of the messages the widget creates (user
    message, answer, error message) show the time of their creation and
    never Invalid Date. *)
Theorem formatTimestamp_reads_back (localeTime : Z → string) (now tv : Z)
        (influencerName s : string) :
  - maxTime ≤ tv ≤ maxTime →
  Date_of_number (Number (JS.numberToString tv)) = Some tv
  ∧ formatTimestamp localeTime now (JS.numberToString tv) = Normal (localeTime tv)
  ∧ timeLine localeTime now (userMessage s tv) = Some (Normal (localeTime tv))
  ∧ timeLine localeTime now (aiMessage influencerName s tv)
    = Some (Normal (localeTime tv))
  ∧ timeLine localeTime now (errorMessage tv) = Some (Normal (localeTime tv)).
Proof.
  intros Hrange.
  assert (Date_of_number (Number (JS.numberToString tv)) = Some tv) as Hdate.
  { rewrite Number_numberToString. change (10 ^ 0) with 1. rewrite Z.mul_1_r.
    unfold Date_of_number. rewrite TimeClip_roundToDouble by lia.
    destruct (Z.ltb_spec tv 0); f_equal; lia. }
  assert (formatTimestamp localeTime now (JS.numberToString tv)
          = Normal (localeTime tv)) as Hformat.
  { unfold formatTimestamp, try_catch. by rewrite Hdate. }
  repeat split; try done; unfold timeLine; cbn [isLoading userMessage aiMessage
    errorMessage timestamp JS.truthy_opt negb]; by rewrite Hformat.
Qed.

(** ** [formatResponseText] on well-formed spans *)

Lemma substring_app_drop (a s : string) (q n : nat) :
  substring (String.length a + q) n (a +:+ s) = substring q n s.
Proof. induction a as [|c a IH]; [done|]. by rewrite append_cons. Qed.

Lemma substring_app_take (a s : string) :
  substring 0 (String.length a) (a +:+ s) = a.
Proof.
  induction a as [|c a IH]; [by destruct s|].
  rewrite append_cons. cbn. by rewrite IH.
Qed.

Lemma matcher_pattern_head (c : ascii) (t : string) (k : string → option string) :
  c ≠ "*"%char → matcher pattern (String c t) k = None.
Proof.
  intros Hc. apply Ascii.eqb_neq in Hc. cbn. unfold atomMatches. by rewrite Hc.
Qed.

Lemma plain_head (c : ascii) (s : string) : plain (String c s) = true → c ≠ "*"%char.
Proof. cbn. intros [Hc _]%andb_true_iff. by apply negb_true_iff, Ascii.eqb_neq in Hc. Qed.

(** No match starts inside a stretch without asterisks. *)
Lemma matcher_inside_plain (a s : string) (q n : nat) (k : string → option string) :
  plain a = true → (q < String.length a)%nat →
  matcher pattern (substring q (S n) (a +:+ s)) k = None.
Proof.
  revert q. induction a as [|c a IH]; intros q Ha Hq; [cbn in Hq; lia|].
  rewrite append_cons. destruct q as [|q].
  - cbn [substring]. apply matcher_pattern_head. by eapply plain_head.
  - cbn [substring]. apply IH; [|cbn in Hq; lia].
    cbn in Ha. by apply andb_true_iff in Ha as [_ ?].
Qed.

Lemma matchAt_inside_plain (a s : string) (q : nat) :
  plain a = true → (q < String.length a)%nat →
  matchAt pattern (a +:+ s) q = None.
Proof.
  intros Ha Hq. unfold matchAt. rewrite length_append.
  replace (String.length a + String.length s - q)%nat
    with (S (String.length a + String.length s - q - 1)) by lia.
  by rewrite matcher_inside_plain.
Qed.

(** No match starts in a tail without asterisks. *)
Lemma matchAt_plain_tail (a c : string) (q : nat) :
  plain c = true → (String.length a ≤ q)%nat →
  matchAt pattern (a +:+ c) q = None.
Proof.
  intros Hc Hq. unfold matchAt.
  replace q with (String.length a + (q - String.length a))%nat at 1 by lia.
  rewrite substring_app_drop.
  by rewrite pattern_needs_asterisk by (by apply plain_substring).
Qed.

(** A match right after the stretch [a]. *)
Lemma matchAt_after (a t rest : string) :
  matcher pattern t Some = Some rest →
  matchAt pattern (a +:+ t) (String.length a)
  = Some (String.length (a +:+ t) - String.length rest)%nat.
Proof.
  intros Hm. unfold matchAt. rewrite length_append.
  replace (String.length a + String.length t - String.length a)%nat
    with (String.length t) by lia.
  replace (String.length a) with (String.length a + 0)%nat at 1 by lia.
  by rewrite substring_app_drop, substring_0_all, Hm.
Qed.

(** The loop steps over the positions where nothing matches. *)
Lemma splitLoop_skip (r : regex) (S : string) (fuel p q n : nat) :
  (∀ q', (q ≤ q' < q + n)%nat → matchAt r S q' = None) →
  (q + n ≤ String.length S)%nat →
  splitLoop (n + fuel) r S p q = splitLoop fuel r S p (q + n).
Proof.
  revert q. induction n as [|n IH]; intros q Hnone Hlen.
  - by rewrite Nat.add_0_r.
  - cbn [Nat.add splitLoop].
    destruct (Nat.ltb_spec q (String.length S)) as [_|Hge]; [|lia].
    rewrite Hnone by lia. rewrite IH; [f_equal; lia | | lia].
    intros q' Hq'. apply Hnone. lia.
Qed.

Lemma splitLoop_tail (r : regex) (S : string) (fuel p q : nat) :
  (∀ q', (q ≤ q')%nat → matchAt r S q' = None) →
  (q ≤ String.length S)%nat →
  (String.length S - q ≤ fuel)%nat →
  splitLoop fuel r S p q = Some [substring p (String.length S - p) S].
Proof.
  intros Hnone Hq Hfuel.
  replace fuel with ((String.length S - q) + (fuel - (String.length S - q)))%nat by lia.
  rewrite splitLoop_skip; [| intros q' [Hq' _]; by apply Hnone | lia].
  replace (q + (String.length S - q))%nat with (String.length S) by lia.
  destruct (fuel - (String.length S - q))%nat; cbn [splitLoop];
    by rewrite Nat.ltb_irrefl.
Qed.

(** One delimited span [m] between two stretches without asterisks gives
    three pieces. *)
Lemma split_one_span (a m c : string) :
  plain a = true → plain c = true →
  matcher pattern (m +:+ c) Some = Some c →
  m ≠ ""%string →
  split pattern (a +:+ (m +:+ c)) = Some [a; m; c].
Proof.
  intros Ha Hc Hm Hne. unfold split.
  set (txt := a +:+ (m +:+ c)).
  assert (String.length txt
          = (String.length a + (String.length m + String.length c))%nat) as Hlen.
  { unfold txt. by rewrite !length_append. }
  assert (String.length m ≠ 0%nat) as Hmlen by (by destruct m).
  destruct (Nat.eqb_spec (String.length txt) 0) as [Hzero|_]; [lia|].
  replace (2 * String.length txt + 1)%nat
    with (String.length a + S (String.length txt + String.length c + String.length m))%nat
    by lia.
  rewrite splitLoop_skip; cycle 1.
  { intros q' Hq'. apply matchAt_inside_plain; [done | lia]. }
  { lia. }
  cbn [Nat.add splitLoop].
  destruct (Nat.ltb_spec (String.length a) (String.length txt)) as [_|Hge]; [|lia].
  unfold txt at 1. rewrite (matchAt_after a (m +:+ c) c Hm). fold txt.
  rewrite Hlen.
  replace (String.length a + (String.length m + String.length c) - String.length c)%nat
    with (String.length a + String.length m)%nat by lia.
  destruct (Nat.eqb_spec (String.length a + String.length m) 0) as [Hz|_]; [lia|].
  rewrite splitLoop_tail; cycle 1.
  { intros q' Hq'. unfold txt. rewrite <- append_assoc.
    apply matchAt_plain_tail; [done|]. by rewrite length_append. }
  { lia. }
  { lia. }
  cbn [mbind option_bind]. do 2 f_equal; [|f_equal; [|f_equal]].
  - rewrite Nat.sub_0_r. apply substring_app_take.
  - replace (String.length a) with (String.length a + 0)%nat at 1 by lia.
    unfold txt. rewrite substring_app_drop.
    replace (String.length a + String.length m - String.length a)%nat
      with (String.length m) by lia.
    apply substring_app_take.
  - unfold txt. rewrite <- append_assoc.
    replace (String.length a + String.length m)%nat
      with (String.length (a +:+ m) + 0)%nat at 1 by (rewrite length_append; lia).
    rewrite substring_app_drop, !length_append.
    replace (String.length a + String.length m + String.length c
             - (String.length a + String.length m))%nat
      with (String.length c) by lia.
    apply substring_0_all.
Qed.

(** The lazy star walks over a stretch without asterisks and line
    terminators and stops at the closing delimiter. *)
Lemma lazyStar_bold (b c : string) :
  plain b = true → oneLine b = true →
  lazyStar Dot (b +:+ String "*" (String "*" c))
           (λ s', matcher (Seq asterisk asterisk) s' Some) = Some c.
Proof.
  intros Hb Hl. induction b as [|x b IH]; [done|].
  rewrite append_cons. cbn in Hb, Hl.
  apply andb_true_iff in Hb as [Hx Hb]. apply andb_true_iff in Hl as [Hlx Hl].
  cbn [lazyStar matcher asterisk atomMatches]. rewrite Hlx.
  apply negb_true_iff in Hx. rewrite Hx. by apply IH.
Qed.

Lemma lazyStar_italic (b c : string) :
  plain b = true → oneLine b = true →
  lazyStar Dot (b +:+ String "*" c) (λ s', matcher asterisk s' Some) = Some c.
Proof.
  intros Hb Hl. induction b as [|x b IH]; [done|].
  rewrite append_cons. cbn in Hb, Hl.
  apply andb_true_iff in Hb as [Hx Hb]. apply andb_true_iff in Hl as [Hlx Hl].
  cbn [lazyStar matcher asterisk atomMatches]. rewrite Hlx.
  apply negb_true_iff in Hx. rewrite Hx. by apply IH.
Qed.

Lemma matcher_bold (b c : string) :
  plain b = true → oneLine b = true →
  matcher pattern (("**" +:+ (b +:+ "**")) +:+ c) Some = Some c.
Proof.
  intros Hb Hl. rewrite !append_assoc.
  change ("**" +:+ b +:+ "**" +:+ c)
    with (String "*" (String "*" (b +:+ String "*" (String "*" c)))).
  cbn [matcher pattern asterisk atomMatches]. cbn [Ascii.eqb Bool.eqb].
  by rewrite lazyStar_bold.
Qed.

Lemma matcher_italic (b c : string) :
  b ≠ ""%string → plain b = true → oneLine b = true →
  matcher pattern (("*" +:+ (b +:+ "*")) +:+ c) Some = Some c.
Proof.
  intros Hne Hb Hl. rewrite !append_assoc.
  change ("*" +:+ b +:+ "*" +:+ c) with (String "*" (b +:+ String "*" c)).
  destruct b as [|x b]; [done|].
  pose proof (lazyStar_italic (String x b) c Hb Hl) as Hlazy.
  rewrite append_cons in *.
  cbn in Hb. apply andb_true_iff in Hb as [Hx _]. apply negb_true_iff in Hx.
  cbn [matcher pattern asterisk atomMatches]. cbn [Ascii.eqb Bool.eqb].
  rewrite Hx. exact Hlazy.
Qed.

Lemma formatPart_plain (i : nat) (a : string) :
  plain a = true → formatPart i a = span i a.
Proof.
  intros Ha. unfold formatPart, JS.startsWith.
  destruct a as [|c a]; [done|]. apply plain_head in Ha.
  assert (∀ p, String.prefix (String "*" p) (String c a) = false) as Hnot.
  { intros p. destruct (String.prefix _ _) eqn:Hp; [|done].
    apply String.prefix_correct in Hp. cbn in Hp. congruence. }
  by rewrite !Hnot.
Qed.

Lemma endsWith_app (p s : string) : JS.endsWith s (p +:+ s) = true.
Proof.
  unfold JS.endsWith, JS.length. rewrite length_append.
  rewrite (proj2 (Nat.leb_le _ _)) by lia.
  replace (String.length p + String.length s - String.length s)%nat
    with (String.length p + 0)%nat by lia.
  by rewrite substring_app_drop, substring_0_all, String.eqb_refl.
Qed.

(** Cutting as many code units off either end as the delimiter has. *)
Lemma slice_inner (d1 b d2 : string) :
  String.length d1 = String.length d2 → String.length d1 ≠ 0%nat →
  JS.slice (Z.of_nat (String.length d1)) (- Z.of_nat (String.length d1))
           (d1 +:+ (b +:+ d2)) = b.
Proof.
  intros Hd Hpos. unfold JS.slice, JS.clampIndex, JS.length.
  rewrite !length_append, <- Hd.
  set (n := String.length d1) in *. set (k := String.length b).
  destruct (Z.ltb_spec (Z.of_nat n) 0) as [?|_]; [lia|].
  destruct (Z.ltb_spec (- Z.of_nat n) 0) as [_|?]; [|lia].
  rewrite Z.min_l by lia.
  match goal with
  | |- substring _ (Z.to_nat ?z) _ = _ => replace (Z.to_nat z) with k by lia
  end.
  replace (Z.to_nat (Z.of_nat n)) with (n + 0)%nat by lia.
  unfold n, k. rewrite substring_app_drop. apply substring_app_take.
Qed.

Lemma formatPart_bold (i : nat) (b : string) :
  formatPart i ("**" +:+ (b +:+ "**")) = strong i b.
Proof.
  unfold formatPart.
  assert (JS.startsWith "**" ("**" +:+ (b +:+ "**")) = true) as ->
    by apply String.prefix_correct, (substring_app_take "**").
  assert (JS.endsWith "**" ("**" +:+ (b +:+ "**")) = true) as ->.
  { rewrite <- append_assoc. apply endsWith_app. }
  cbn [andb]. f_equal. by apply (slice_inner "**" b "**").
Qed.

Lemma formatPart_italic (i : nat) (b : string) :
  b ≠ ""%string → plain b = true →
  formatPart i ("*" +:+ (b +:+ "*")) = em i b.
Proof.
  intros Hne Hb. unfold formatPart.
  assert (JS.startsWith "**" ("*" +:+ (b +:+ "*")) = false) as ->.
  { destruct b as [|x b]; [done|]. apply plain_head in Hb.
    unfold JS.startsWith. destruct (String.prefix _ _) eqn:Hp; [|done].
    apply String.prefix_correct in Hp.
    change ("*" +:+ String x b +:+ "*") with (String "*" (String x (b +:+ "*"))) in Hp.
    cbn in Hp. congruence. }
  assert (JS.startsWith "*" ("*" +:+ (b +:+ "*")) = true) as ->
    by apply String.prefix_correct, (substring_app_take "*").
  assert (JS.endsWith "*" ("*" +:+ (b +:+ "*")) = true) as ->.
  { rewrite <- append_assoc. apply endsWith_app. }
  cbn [andb]. f_equal. by apply (slice_inner "*" b "*").
Qed.

(** X13: a bold span.  When [a], [b] and [c] contain no asterisk and [b] no
    line terminator, the text a**b**c is rendered as [a] unchanged, [b] in
    a strong element, and [c] unchanged. *)
Theorem formatResponseText_bold (a b c : string) :
  plain a = true → plain b = true → oneLine b = true → plain c = true →
  formatResponseText (a +:+ "**" +:+ b +:+ "**" +:+ c)
  = Some [span 0 a; strong 1 b; span 2 c].
Proof.
  intros Ha Hb Hl Hc.
  replace (a +:+ "**" +:+ b +:+ "**" +:+ c)
    with (a +:+ (("**" +:+ (b +:+ "**")) +:+ c)) by (by rewrite !append_assoc).
  unfold formatResponseText.
  rewrite split_one_span; [|done|done|by apply matcher_bold|done].
  cbn [fmap option_fmap option_map imap]. unfold compose.
  by rewrite (formatPart_plain 0 a), (formatPart_plain 2 c), formatPart_bold.
Qed.

(** X14: an italic span.  When [a], [b] and [c] contain no asterisk, [b] is
    not empty and contains no line terminator, the text a*b*c is rendered
    as [a] unchanged, [b] in an emphasis element, and [c] unchanged. *)
Theorem formatResponseText_italic (a b c : string) :
  plain a = true → b ≠ ""%string → plain b = true → oneLine b = true →
  plain c = true →
  formatResponseText (a +:+ "*" +:+ b +:+ "*" +:+ c)
  = Some [span 0 a; em 1 b; span 2 c].
Proof.
  intros Ha Hne Hb Hl Hc.
  replace (a +:+ "*" +:+ b +:+ "*" +:+ c)
    with (a +:+ (("*" +:+ (b +:+ "*")) +:+ c)) by (by rewrite !append_assoc).
  unfold formatResponseText.
  rewrite split_one_span; [|done|done|by apply matcher_italic|done].
  cbn [fmap option_fmap option_map imap]. unfold compose.
  by rewrite (formatPart_plain 0 a), (formatPart_plain 2 c), formatPart_italic.
Qed.

(** ** [split] loses nothing *)

Lemma substring_split (s : string) (p q : nat) :
  (p ≤ q ≤ String.length s)%nat →
  substring p (q - p) s +:+ substring q (String.length s - q) s
  = substring p (String.length s - p) s.
Proof.
  revert p q. induction s as [|c s IH]; intros p q Hpq.
  - cbn in Hpq. by destruct p, q.
  - destruct p as [|p], q as [|q]; cbn in Hpq |- *; [done | | lia |].
    + rewrite append_cons. f_equal.
      specialize (IH 0%nat q). rewrite !Nat.sub_0_r in IH. apply IH. lia.
    + apply IH. lia.
Qed.

Lemma concat_cons (x : string) (xs : list string) :
  String.concat "" (x :: xs) = x +:+ String.concat "" xs.
Proof. destruct xs; cbn; [by rewrite append_empty_r | done]. Qed.

Lemma splitLoop_concat (r : regex) (S : string) (fuel p q : nat) (parts : list string) :
  (p ≤ q ≤ String.length S)%nat →
  splitLoop fuel r S p q = Some parts →
  String.concat "" parts = substring p (String.length S - p) S
  ∧ Nat.odd (List.length parts) = true.
Proof.
  revert p q parts. induction fuel as [|fuel IH]; intros p q parts Hpq;
    cbn [splitLoop];
    destruct (Nat.ltb_spec q (String.length S)) as [Hlt|Hge];
    try done; try (by intros [= <-]).
  destruct (matchAt r S q) as [e|] eqn:He.
  - apply matchAt_bounds in He as [Hqe HeS]; [|lia].
    destruct (Nat.eqb_spec e p) as [->|Hne]; [apply IH; lia|].
    destruct (splitLoop fuel r S e e) as [rest|] eqn:Hrest; [|done].
    cbn [mbind option_bind]. intros [= <-].
    destruct (IH e e rest) as [Hcat Hodd]; [lia | done |].
    split; [|done].
    rewrite !concat_cons, Hcat.
    rewrite (substring_split S q e) by lia.
    apply substring_split. lia.
  - apply IH. lia.
Qed.

(** X15: the pieces [split] returns for the pattern of line 21, put
    together again, are the text: the split always returns, it loses and
    adds no code unit, and the number of pieces is odd (pieces of text
    alternate with captured spans). *)
Theorem split_loses_nothing (text : string) :
  ∃ parts, split pattern text = Some parts
           ∧ String.concat "" parts = text
           ∧ Nat.odd (List.length parts) = true.
Proof.
  destruct (split_total pattern text) as [parts Hparts]. exists parts.
  split; [done|]. unfold split in Hparts.
  destruct (Nat.eqb_spec (String.length text) 0) as [Hzero|_].
  - destruct text; [|done]. cbn in Hparts. by injection Hparts as <-.
  - apply splitLoop_concat in Hparts as [Hcat Hodd]; [|lia].
    by rewrite Nat.sub_0_r, substring_0_all in Hcat.
Qed.

(** ** [Home]: one navigation per connection *)

(** X16: with the same router object as in the render before, the effect of
    either [Home] navigates only when [connected] has just turned from
    false to true (and, for the [Home] that looks at the path, the path is
    the landing route): while the wallet stays connected no further
    navigation is triggered, and a disconnection triggers none. *)
Theorem Home_navigates_on_connect (c : bool) (rt : nat) (r : Render) :
  router r = rt →
  snd (commit Home_effect (Some (c, rt)) r)
  = (if negb c && connected r then ["/dashboard"%string] else [])
  ∧ snd (commit Home_effect_onHomepage (Some (c, rt)) r)
    = (if negb c && connected r && String.eqb (pathname r) "/"
       then ["/dashboard"%string] else []).
Proof.
  intros <-. unfold commit, depsChanged, Home_effect, Home_effect_onHomepage.
  rewrite Nat.eqb_refl. by destruct c, (connected r).
Qed.

(** ** The spinner *)

Lemma bubble_Spinner (m : ChatMessage) : bubble m = Spinner ↔ loading m = true.
Proof.
  unfold bubble, loading. destruct (JS.truthy_opt (isLoading m)); [done|].
  by destruct (JS.truthy_opt (isImage m)).
Qed.

(** X17: in every reachable state the spinner is drawn exactly while the
    textarea is disabled, and only as the last bubble of the list. *)
Theorem spinner_while_disabled (influencerName : string) (w : World) :
  reachable influencerName w →
  (textareaDisabled (window w) = true
   ↔ ∃ m, last (messages (window w)) = Some m ∧ bubble m = Spinner)
  ∧ (∀ i m, messages (window w) !! i = Some m → bubble m = Spinner →
            S i = List.length (messages (window w))).
Proof.
  intros Hreach. pose proof (reachable_Inv _ _ Hreach) as [(old & Hold & Hmsgs) _].
  unfold textareaDisabled.
  assert (∀ m, m ∈ old → bubble m ≠ Spinner) as Hsettled.
  { intros m Hm Hspin%bubble_Spinner.
    destruct (proj1 (Forall_forall _ _) Hold m Hm) as (_ & Hl & _). congruence. }
  rewrite Hmsgs. split.
  - destruct (isProcessing (window w)); cbn [tail_of].
    + split; [|done]. intros _. exists loadingMessage. by rewrite last_snoc.
    + rewrite app_nil_r. split; [done|]. intros (m & Hlast & Hspin).
      exfalso. apply (Hsettled m); [|done]. by apply last_Some_elem_of.
  - intros i m [Hi|[Hge Hi]]%lookup_app_Some Hspin.
    + exfalso. apply (Hsettled m); [|done]. by eapply list_elem_of_lookup_2.
    + destruct (isProcessing (window w)); cbn [tail_of] in *; [|done].
      apply list_lookup_singleton_Some in Hi as [Hi0 _].
      rewrite length_app. cbn. lia.
Qed.

(** ** The further properties on sample runs *)

(** After [abandoned], a firing of the timer leaves the stuck answer at
    index 1. *)
Lemma earlier_messages_frozen_witness :
  reachable "luna" (run "luna" abandoned start)
  ∧ (2 < List.length (messages (window (run "luna" abandoned start))))%nat
  ∧ messages (window (run "luna" [TimerFires] (run "luna" abandoned start))) !! 1%nat
    = Some stuck.
Proof.
  assert (reachable "luna" (run "luna" abandoned start)) as Hreach.
  { exists abandoned. reflexivity. }
  assert (2 < List.length (messages (window (run "luna" abandoned start))))%nat
    as Hlen.
  { vm_compute. lia. }
  split; [exact Hreach|]. split; [exact Hlen|].
  exact (proj1 (earlier_messages_frozen "luna" _ [TimerFires] 1 Hreach Hlen)).
Defined.

(** The loader of [asked] is not grown by the timer. *)
Lemma tick_spares_others_witness :
  messages (window (run "luna" asked start)) !! 1%nat = Some loadingMessage
  ∧ ¬ textual loadingMessage
  ∧ messages (window (step "luna" TimerFires (run "luna" asked start))) !! 1%nat
    = Some loadingMessage.
Proof.
  assert (¬ textual loadingMessage) as Hnot.
  { intros (_ & Hloading & _). discriminate Hloading. }
  split; [reflexivity|]. split; [exact Hnot|].
  exact (tick_spares_others "luna" (run "luna" asked start) 1 loadingMessage
           eq_refl Hnot).
Defined.

(** The first firing after the answer "hi" has arrived shows "h". *)
Lemma tick_reveals_one_witness :
  messages (window (run "luna" answered start))
  = [userMessage "yo" 1000] ++ [aiMessage "luna" "hi" 2000]
  ∧ textual (aiMessage "luna" "hi" 2000)
  ∧ messages (window (step "luna" TimerFires (run "luna" answered start)))
    = [userMessage "yo" 1000; stuck].
Proof.
  assert (textual (aiMessage "luna" "hi" 2000)) as Htext.
  { repeat split. }
  assert (String.length (displayText (aiMessage "luna" "hi" 2000))
          < String.length (text (aiMessage "luna" "hi" 2000)))%nat as Hlt.
  { vm_compute. lia. }
  split; [reflexivity|]. split; [exact Htext|].
  exact (f_equal (λ w, messages (window w))
           (proj1 (tick_reveals_one "luna" (run "luna" answered start)
                     [userMessage "yo" 1000] (aiMessage "luna" "hi" 2000)
                     eq_refl Htext Hlt))).
Defined.

(** A draft typed while the question of [asked] is pending survives the
    arrival of the answer. *)
Lemma draft_kept_witness :
  settles (FetchSettles (Resolved true (Data "hi")) 2000) = true
  ∧ input (window (step "luna" (FetchSettles (Resolved true (Data "hi")) 2000)
                     (run "luna" (asked ++ [Change "draft"]) start)))
    = "draft"%string.
Proof.
  split; [reflexivity|].
  exact (draft_kept "luna" (run "luna" (asked ++ [Change "draft"]) start)
           (FetchSettles (Resolved true (Data "hi")) 2000) (or_intror eq_refl)).
Defined.

(** "yo" is asked of luna, "hi" is answered and revealed in two firings. *)
Lemma question_answered_witness :
  reachable "luna" (run "luna" [Change "yo"] start)
  ∧ accepted (window (run "luna" [Change "yo"] start))
  ∧ "luna"%string ≠ "artifex"%string
  ∧ messages (window (run "luna"
                        ([Submit 1000; FetchSettles (Resolved true (Data "hi")) 2000]
                         ++ ticks 2)
                        (run "luna" [Change "yo"] start)))
    = [userMessage "yo" 1000; revealedAnswer "hi" 2000].
Proof.
  assert (reachable "luna" (run "luna" [Change "yo"] start)) as Hreach.
  { exists [Change "yo"]. reflexivity. }
  assert (accepted (window (run "luna" [Change "yo"] start))) as Hacc.
  { split; [discriminate | reflexivity]. }
  assert ("luna"%string ≠ "artifex"%string) as Hpersona by discriminate.
  split; [exact Hreach|]. split; [exact Hacc|]. split; [exact Hpersona|].
  exact (f_equal messages
           (question_answered "luna" _ 1000 2000 "hi" Hreach Hacc Hpersona)).
Defined.

(** "draw" is asked of artifex; the locator that is answered stays hidden
    after five firings. *)
Lemma image_answer_never_revealed_witness :
  reachable "artifex" (run "artifex" [Change "draw"] start)
  ∧ accepted (window (run "artifex" [Change "draw"] start))
  ∧ messages (window (run "artifex"
                        ([Submit 1000; FetchSettles (Resolved true (Data "https://x/img.png")) 2000]
                         ++ ticks 5)
                        (run "artifex" [Change "draw"] start)))
    = [userMessage "draw" 1000; imageAnswer "https://x/img.png" 2000].
Proof.
  assert (reachable "artifex" (run "artifex" [Change "draw"] start)) as Hreach.
  { exists [Change "draw"]. reflexivity. }
  assert (accepted (window (run "artifex" [Change "draw"] start))) as Hacc.
  { split; [discriminate | reflexivity]. }
  split; [exact Hreach|]. split; [exact Hacc|].
  exact (f_equal messages
           (image_answer_never_revealed "artifex" _ 1000 2000 "https://x/img.png" 5
              Hreach Hacc eq_refl)).
Defined.

(** The four messages of [abandoned] alternate. *)
Lemma questions_and_answers_alternate_witness :
  reachable "luna" (run "luna" abandoned start)
  ∧ alternating (messages (window (run "luna" abandoned start))).
Proof.
  assert (reachable "luna" (run "luna" abandoned start)) as Hreach.
  { exists abandoned. reflexivity. }
  split; [exact Hreach|].
  exact (questions_and_answers_alternate "luna" _ Hreach).
Defined.

(** Three spaces are not sent. *)
Lemma blank_input_never_sent_witness :
  isProcessing (window (run "luna" [Change "   "] start)) = false
  ∧ step "luna" (Submit 1000) (run "luna" [Change "   "] start)
    = run "luna" [Change "   "] start.
Proof.
  split; [reflexivity|].
  exact (proj1 (blank_input_never_sent "luna" (run "luna" [Change "   "] start) 1000
                  eq_refl) eq_refl).
Defined.

(** The cursor after the answer "hi" that has just arrived. *)
Lemma cursor_iff_armed_witness :
  last (messages (window (run "luna" answered start)))
  = Some (aiMessage "luna" "hi" 2000)
  ∧ ∃ content, bubble (aiMessage "luna" "hi" 2000) = Prose content true.
Proof.
  split; [reflexivity|].
  exact (proj1 (cursor_iff_armed (messages (window (run "luna" answered start)))
                  (aiMessage "luna" "hi" 2000) eq_refl) eq_refl).
Defined.

(** " hi" and "hi" give different bodies. *)
Lemma body_determines_input_witness :
  " hi"%string ≠ "hi"%string
  ∧ body (fetchRequest "luna" " hi") ≠ body (fetchRequest "luna" "hi").
Proof.
  assert (" hi"%string ≠ "hi"%string) as Hne by discriminate.
  split; [exact Hne|].
  exact (body_determines_input "luna" " hi" "hi" Hne).
Defined.

(** The timestamp "1700000000000" on a host that prints UTC. *)
Lemma formatTimestamp_reads_back_witness :
  - maxTime ≤ 1700000000000 ≤ maxTime
  ∧ formatTimestamp utcTime 0 (JS.numberToString 1700000000000)
    = Normal "22:13"%string.
Proof.
  assert (- maxTime ≤ 1700000000000 ≤ maxTime) as Hrange.
  { split; discriminate. }
  split; [exact Hrange|].
  exact (proj1 (proj2 (formatTimestamp_reads_back utcTime 0 1700000000000
                         "luna" "" Hrange))).
Defined.

(** A text without asterisks. *)
Lemma formatResponseText_plain_witness :
  plain "2 + 3 = 5" = true
  ∧ formatResponseText "2 + 3 = 5" = Some [span 0 "2 + 3 = 5"].
Proof.
  split; [reflexivity|].
  exact (formatResponseText_plain "2 + 3 = 5" eq_refl).
Defined.

(** "a **b** c" and "a *b* c". *)
Lemma formatResponseText_bold_witness :
  plain "a " = true ∧ plain "b" = true ∧ oneLine "b" = true ∧ plain " c" = true
  ∧ formatResponseText ("a " +:+ "**" +:+ "b" +:+ "**" +:+ " c")
    = Some [span 0 "a "; strong 1 "b"; span 2 " c"].
Proof.
  repeat (split; [reflexivity|]).
  exact (formatResponseText_bold "a " "b" " c" eq_refl eq_refl eq_refl eq_refl).
Defined.

Lemma formatResponseText_italic_witness :
  plain "a " = true ∧ "b"%string ≠ ""%string ∧ plain "b" = true
  ∧ oneLine "b" = true ∧ plain " c" = true
  ∧ formatResponseText ("a " +:+ "*" +:+ "b" +:+ "*" +:+ " c")
    = Some [span 0 "a "; em 1 "b"; span 2 " c"].
Proof.
  assert ("b"%string ≠ ""%string) as Hne by discriminate.
  split; [reflexivity|]. split; [exact Hne|]. repeat (split; [reflexivity|]).
  exact (formatResponseText_italic "a " "b" " c" eq_refl Hne eq_refl eq_refl eq_refl).
Defined.

(** The wallet stays connected from one render to the next. *)
Lemma Home_navigates_on_connect_witness :
  router {| connected := true; router := 7; pathname := "/" |} = 7%nat
  ∧ snd (commit Home_effect_onHomepage (Some (true, 7%nat))
           {| connected := true; router := 7; pathname := "/" |}) = [].
Proof.
  split; [reflexivity|].
  exact (proj2 (Home_navigates_on_connect true 7
                  {| connected := true; router := 7; pathname := "/" |} eq_refl)).
Defined.

(** The spinner of [asked]. *)
Lemma spinner_while_disabled_witness :
  reachable "luna" (run "luna" asked start)
  ∧ ∃ m, last (messages (window (run "luna" asked start))) = Some m
         ∧ bubble m = Spinner.
Proof.
  assert (reachable "luna" (run "luna" asked start)) as Hreach.
  { exists asked. reflexivity. }
  split; [exact Hreach|].
  exact (proj1 (proj1 (spinner_while_disabled "luna" _ Hreach)) eq_refl).
Defined.

(** ** [formatTimestamp] in the widget *)







